(** * CLI-Pomo: the interval state machine and its in-memory store

    A shallow embedding of the Go packages [pomodoro] (interval.go) and
    [repository] (inMemory.go), followed by the properties of the
    specification that are stated over them.

    Conventions of the embedding:
    - [int64], [int] and [time.Duration] values are integers of [Z]; the
      two's-complement wrap-around of [int64] arithmetic is written out
      with [wrap64];
    - a Go function returning [(T, error)] returns a pair whose second
      component is [None] for a [nil] error;
    - a call either returns, panics (a run-time panic or a fatal error of
      the run-time system; the program has no [recover]), or blocks;
    - the state the program acts on is threaded explicitly. *)

From Stdlib Require Import ZArith String List Bool Lia.
From stdpp Require Import base list.
Import ListNotations.

Local Open Scope string_scope.
Local Open Scope list_scope.
Local Open Scope Z_scope.

(** ** Machine integers *)

Definition min_int64 : Z := - 2 ^ 63.
Definition max_int64 : Z := 2 ^ 63 - 1.

(** The value of an [int64] expression whose mathematical value is [z]. *)
Definition wrap64 (z : Z) : Z := (z + 2 ^ 63) mod 2 ^ 64 - 2 ^ 63.

(** The values an [int64] field can hold. *)
Definition is_int64 (z : Z) : Prop := min_int64 <= z <= max_int64.

(** ** Outcomes of a call, and state passing *)

Inductive outcome (A : Type) : Type :=
| Returns (a : A)
| Panics (msg : string)
| Blocks.

Arguments Returns {A} a.
Arguments Panics {A} msg.
Arguments Blocks {A}.

Definition M (W A : Type) : Type := W -> outcome A * W.

Definition ret {W A} (a : A) : M W A := fun w => (Returns a, w).

Definition bind {W A B} (m : M W A) (k : A -> M W B) : M W B :=
  fun w =>
    match m w with
    | (Returns a, w') => k a w'
    | (Panics msg, w') => (Panics msg, w')
    | (Blocks, w') => (Blocks, w')
    end.

Declare Scope go_scope.
Delimit Scope go_scope with go.
Notation "'let!' x ':=' m 'in' k" := (bind m (fun x => k))
  (at level 10, x pattern, m at level 100, k at level 200, only parsing) : go_scope.

(** * Package pomodoro (interval.go) *)

Module pomodoro.

(** Category constants *)
Definition CategoryPomodoro : string := "Pomodoro".
Definition CategoryShortBreak : string := "ShortBreak".
Definition CategoryLongBreak : string := "LongBreak".

(** State constants ([iota]) *)
Definition StateNotStarted : Z := 0.
Definition StateRunning : Z := 1.
Definition StatePaused : Z := 2.
Definition StateDone : Z := 3.
Definition StateCancelled : Z := 4.

(** [time.Time], as the nanoseconds elapsed since its zero value, and
    [time.Duration], an [int64] count of nanoseconds. *)
Definition Time : Type := Z.
Definition Duration : Type := Z.
Definition Second : Duration := 1000000000.
Definition Minute : Duration := 60 * Second.

Record Interval : Type := mkInterval {
  ID : Z;
  StartTime : Time;
  PlannedDuration : Duration;
  ActualDuration : Duration;
  Category : string;
  State : Z
}.

(** The zero value [Interval{}]. *)
Definition zeroInterval : Interval := mkInterval 0 0 0 0 "" 0.

Definition with_ID (v : Z) (i : Interval) : Interval :=
  mkInterval v (StartTime i) (PlannedDuration i) (ActualDuration i) (Category i) (State i).
Definition with_StartTime (v : Time) (i : Interval) : Interval :=
  mkInterval (ID i) v (PlannedDuration i) (ActualDuration i) (Category i) (State i).
Definition with_PlannedDuration (v : Duration) (i : Interval) : Interval :=
  mkInterval (ID i) (StartTime i) v (ActualDuration i) (Category i) (State i).
Definition with_ActualDuration (v : Duration) (i : Interval) : Interval :=
  mkInterval (ID i) (StartTime i) (PlannedDuration i) v (Category i) (State i).
Definition with_Category (v : string) (i : Interval) : Interval :=
  mkInterval (ID i) (StartTime i) (PlannedDuration i) (ActualDuration i) v (State i).
Definition with_State (v : Z) (i : Interval) : Interval :=
  mkInterval (ID i) (StartTime i) (PlannedDuration i) (ActualDuration i) (Category i) v.

(** Error values.  The first five are the package's sentinels;
    [Errorf format e args] is [fmt.Errorf(format, e, args...)] with a [%w]
    verb wrapping [e]; [ErrOther] is any other error a repository may
    return. *)
Inductive error : Type :=
| ErrNoIntervals
| ErrIntervalNotRunning
| ErrIntervalCompleted
| ErrInvalidState
| ErrInvalidID
| Errorf (format : string) (wrapped : error) (args : list Z)
| ErrOther (text : string).

Definition error_eq_dec (a b : error) : {a = b} + {a <> b}.
Proof.
  decide equality.
  - apply (List.list_eq_dec Z.eq_dec).
  - apply string_dec.
  - apply string_dec.
Defined.

(** [err == target] *)
Definition error_eqb (err target : error) : bool :=
  if error_eq_dec err target then true else false.

(** [errors.Is(err, target)] *)
Fixpoint errors_Is (err target : error) : bool :=
  error_eqb err target ||
  match err with
  | Errorf _ inner _ => errors_Is inner target
  | _ => false
  end.

(** The [Repository] interface, over the type [W] of the states its
    implementation acts on. *)
Record Repository (W : Type) : Type := {
  Create : Interval -> M W (Z * option error);
  Update : Interval -> M W (option error);
  ByID : Z -> M W (Interval * option error);
  Last : M W (Interval * option error);
  Breaks : Z -> M W (list Interval * option error)
}.

Arguments Create {W} _ _ _.
Arguments Update {W} _ _ _.
Arguments ByID {W} _ _ _.
Arguments Last {W} _ _.
Arguments Breaks {W} _ _ _.

(** The method set that a type must have to be used as a [Repository]. *)
Definition Repository_methods : list string :=
  ["Create"; "Update"; "ByID"; "Last"; "Breaks"].

(** [IntervalConfig], without its [repo] field: the repository is the
    [repo] of the section below, acting on the threaded state. *)
Record IntervalConfig : Type := mkConfig {
  PomodoroDuration : Duration;
  ShortBreakDuration : Duration;
  LongBreakDuration : Duration
}.

Definition NewConfig (pomodoro shortBreak longBreak : Duration) : IntervalConfig :=
  let c := mkConfig (25 * Minute) (5 * Minute) (15 * Minute) in
  let c := if 0 <? pomodoro
           then mkConfig pomodoro (ShortBreakDuration c) (LongBreakDuration c) else c in
  let c := if 0 <? shortBreak
           then mkConfig (PomodoroDuration c) shortBreak (LongBreakDuration c) else c in
  let c := if 0 <? longBreak
           then mkConfig (PomodoroDuration c) (ShortBreakDuration c) longBreak else c in
  c.

(** What the [select] of [tick] can receive from: the ticker's channel,
    the [expire] timer's channel, and [ctx.Done()]. *)
Inductive event : Type :=
| TickerC
| Expire
| CtxDone.

Section WithRepository.

Context {W : Type}.
Variable repo : Repository W.

Local Open Scope go_scope.

Definition nextCategory : M W (string * option error) :=
  let! (li, err) := Last repo in
  match err with
  | Some e =>
      if error_eqb e ErrNoIntervals
      then ret (CategoryPomodoro, None)
      else ret ("", Some e)
  | None =>
      if (Category li =? CategoryLongBreak)%string
         || (Category li =? CategoryShortBreak)%string
      then ret (CategoryPomodoro, None)
      else
        let! (lastBreaks, err) := Breaks repo 3 in
        match err with
        | Some e => ret ("", Some e)
        | None =>
            if Z.of_nat (length lastBreaks) <? 3
            then ret (CategoryLongBreak, None)
            else if existsb
                      (fun i => (Category i =? CategoryLongBreak)%string)
                      lastBreaks
            then ret (CategoryShortBreak, None)
            else ret (CategoryLongBreak, None)
        end
  end.

(** A callback is a closure of the caller: it may act on the state. *)
Definition Callback : Type := Interval -> M W unit.

(** The [for { select { ... } }] of [tick].  Which channel of the
    [select] is ready at each iteration is decided by the run-time
    system; [ready] lists these choices in order, and the loop is blocked
    in the [select] once the list is used up. *)
Fixpoint tick_loop (ready : list event) (id : Z) (periodic end_ : Callback)
  : M W (option error) :=
  match ready with
  | [] => fun w => (Blocks, w)
  | TickerC :: ready' =>
      let! (i, err) := ByID repo id in
      match err with
      | Some e => ret (Some e)
      | None =>
          if State i =? StatePaused then ret None
          else
            let i := with_ActualDuration (wrap64 (ActualDuration i + Second)) i in
            let! err := Update repo i in
            match err with
            | Some e => ret (Some e)
            | None => let! _ := periodic i in tick_loop ready' id periodic end_
            end
      end
  | Expire :: _ =>
      let! (i, err) := ByID repo id in
      match err with
      | Some e => ret (Some e)
      | None =>
          let i := with_State StateDone i in
          let! _ := end_ i in
          Update repo i
      end
  | CtxDone :: _ =>
      let! (i, err) := ByID repo id in
      match err with
      | Some e => ret (Some e)
      | None =>
          let i := with_State StateCancelled i in
          Update repo i
      end
  end.

(** [tick]: the context [ctx], the ticker and the [expire] timer are
    represented by the events [ready] that they deliver. *)
Definition tick (ready : list event) (id : Z) (config : IntervalConfig)
  (start periodic end_ : Callback) : M W (option error) :=
  let! (i, err) := ByID repo id in
  match err with
  | Some e => ret (Some e)
  | None =>
      let! _ := start i in
      tick_loop ready id periodic end_
  end.

Definition newInterval (config : IntervalConfig) : M W (Interval * option error) :=
  let i := zeroInterval in
  let! (category, err) := nextCategory in
  match err with
  | Some e => ret (i, Some e)
  | None =>
      let i := with_Category category i in
      let i :=
        if (category =? CategoryPomodoro)%string
        then with_PlannedDuration (PomodoroDuration config) i
        else if (category =? CategoryShortBreak)%string
        then with_PlannedDuration (ShortBreakDuration config) i
        else if (category =? CategoryLongBreak)%string
        then with_PlannedDuration (LongBreakDuration config) i
        else i in
      let! (id, err) := Create repo i in
      let i := with_ID id i in
      match err with
      | Some e => ret (i, Some e)
      | None => ret (i, None)
      end
  end.

Definition GetInterVal (config : IntervalConfig) : M W (Interval * option error) :=
  let! (i, err) := Last repo in
  match err with
  | Some e =>
      if negb (error_eqb e ErrNoIntervals) then ret (i, Some e)
      else newInterval config
  | None =>
      if negb (State i =? StateCancelled) && negb (State i =? StateDone)
      then ret (i, None)
      else newInterval config
  end.

(** [Interval.Start]; [now] is the value [time.Now()] returns. *)
Definition Start (i : Interval) (now : Time) (ready : list event)
  (config : IntervalConfig) (start periodic end_ : Callback)
  : M W (option error) :=
  let run (i : Interval) : M W (option error) :=
    let i := with_State StateRunning i in
    let! err := Update repo i in
    match err with
    | Some e => ret (Some e)
    | None => tick ready (ID i) config start periodic end_
    end in
  if State i =? StateRunning then ret None
  else if State i =? StateNotStarted then run (with_StartTime now i)
  else if State i =? StatePaused then run i
  else if (State i =? StateCancelled) || (State i =? StateDone)
  then ret (Some (Errorf "%w: Cannot start" ErrIntervalCompleted []))
  else ret (Some (Errorf "%w: %d" ErrInvalidState [State i])).

Definition Pause (i : Interval) (config : IntervalConfig) : M W (option error) :=
  if negb (State i =? StateRunning) then ret (Some ErrIntervalNotRunning)
  else
    let i := with_State StatePaused i in
    Update repo i.

End WithRepository.

End pomodoro.

(** * Package repository (inMemory.go) *)

Module repository.

Import pomodoro.

Local Open Scope go_scope.

(** ** sync.RWMutex

    The mutex is held by one writer or by a number of readers.  Acquiring
    it while it is not available blocks the caller; releasing it while it
    is not held is a fatal error of the run-time system. *)
Record RWMutex : Type := mkRWMutex {
  writer : bool;
  readers : nat
}.

(** The zero value of [sync.RWMutex]: an unlocked mutex. *)
Definition zeroRWMutex : RWMutex := mkRWMutex false 0.

Definition mutex_Lock (m : RWMutex) : outcome RWMutex :=
  if writer m || negb (Nat.eqb (readers m) 0) then Blocks
  else Returns (mkRWMutex true (readers m)).

Definition mutex_Unlock (m : RWMutex) : outcome RWMutex :=
  if writer m then Returns (mkRWMutex false (readers m))
  else Panics "fatal error: sync: Unlock of unlocked RWMutex".

Definition mutex_RLock (m : RWMutex) : outcome RWMutex :=
  if writer m then Blocks
  else Returns (mkRWMutex (writer m) (S (readers m))).

Definition mutex_RUnlock (m : RWMutex) : outcome RWMutex :=
  match readers m with
  | O => Panics "fatal error: sync: RUnlock of unlocked RWMutex"
  | S n => Returns (mkRWMutex (writer m) n)
  end.

(** [RLocker] returns a [Locker] whose methods are [RLock] and [RUnlock];
    calling it acquires nothing. *)
Definition mutex_RLocker (m : RWMutex) : outcome RWMutex := Returns m.

Record inMemoryRepo : Type := mkRepo {
  mu : RWMutex;
  intervals : list Interval
}.

Definition with_mu (m : RWMutex) (r : inMemoryRepo) : inMemoryRepo :=
  mkRepo m (intervals r).
Definition with_intervals (l : list Interval) (r : inMemoryRepo) : inMemoryRepo :=
  mkRepo (mu r) l.

(** A method of the embedded mutex, called on the repository. *)
Definition on_mu (op : RWMutex -> outcome RWMutex) : M inMemoryRepo unit :=
  fun r =>
    match op (mu r) with
    | Returns m => (Returns tt, with_mu m r)
    | Panics msg => (Panics msg, r)
    | Blocks => (Blocks, r)
    end.

Definition Lock : M inMemoryRepo unit := on_mu mutex_Lock.
Definition Unlock : M inMemoryRepo unit := on_mu mutex_Unlock.
Definition RLock : M inMemoryRepo unit := on_mu mutex_RLock.
Definition RUnlock : M inMemoryRepo unit := on_mu mutex_RUnlock.
Definition RLocker : M inMemoryRepo unit := on_mu mutex_RLocker.

(** [defer d] followed by [body]: [d] runs when [body] returns or panics,
    and a panic of [body] goes on after it. *)
Definition defer {W A} (d : M W unit) (body : M W A) : M W A :=
  fun w =>
    match body w with
    | (Blocks, w') => (Blocks, w')
    | (o, w') =>
        match d w' with
        | (Returns _, w'') => (o, w'')
        | (Panics msg, w'') => (Panics msg, w'')
        | (Blocks, w'') => (Blocks, w'')
        end
    end.

(** [s[k]] for an index [k] of type [int64]: [None] is the run-time panic
    for an index out of range. *)
Definition index (s : list Interval) (k : Z) : option Interval :=
  if k <? 0 then None else s !! Z.to_nat k.

Definition index_panic : string := "runtime error: index out of range".

Definition NewInMemoryRepo : inMemoryRepo := mkRepo zeroRWMutex [].

Definition Create (i : Interval) : M inMemoryRepo (Z * option error) :=
  let! _ := Lock in
  defer Unlock (fun r =>
    let i := with_ID (wrap64 (Z.of_nat (length (intervals r)) + 1)) i in
    (Returns (ID i, None), with_intervals (intervals r ++ [i]) r)).

Definition Update (i : Interval) : M inMemoryRepo (option error) :=
  let! _ := Lock in
  defer Unlock (fun r =>
    if ID i =? 0 then (Returns (Some (Errorf "%w: %d" ErrInvalidID [ID i])), r)
    else
      let k := wrap64 (ID i - 1) in
      match index (intervals r) k with
      | None => (Panics index_panic, r)
      | Some _ => (Returns None, with_intervals (<[Z.to_nat k := i]> (intervals r)) r)
      end).

Definition ByID (id : Z) : M inMemoryRepo (Interval * option error) :=
  let! _ := RLock in
  defer RUnlock (fun r =>
    let i := zeroInterval in
    if id =? 0 then (Returns (i, Some (Errorf "%w: %d" ErrInvalidID [id])), r)
    else
      match index (intervals r) (wrap64 (id - 1)) with
      | None => (Panics index_panic, r)
      | Some i => (Returns (i, None), r)
      end).

(** The loop of [Breaks]: [downwards] holds [r.intervals[k]] for [k] from
    [len(r.intervals) - 1] down to [0]. *)
Fixpoint Breaks_loop (n : Z) (downwards data : list Interval) : list Interval :=
  match downwards with
  | [] => data
  | x :: downwards' =>
      if (Category x =? CategoryPomodoro)%string then Breaks_loop n downwards' data
      else
        let data := data ++ [x] in
        if Z.of_nat (length data) =? n then data
        else Breaks_loop n downwards' data
  end.

Definition Breaks (n : Z) : M inMemoryRepo (list Interval * option error) :=
  let! _ := RLocker in
  defer RUnlock (fun r =>
    (Returns (Breaks_loop n (rev (intervals r)) [], None), r)).

(** The method set of [*inMemoryRepo]: the four methods of inMemory.go and
    the methods promoted from the embedded [sync.RWMutex]. *)
Definition inMemoryRepo_methods : list string :=
  ["Create"; "Update"; "ByID"; "Breaks";
   "Lock"; "Unlock"; "RLock"; "RUnlock"; "RLocker"; "TryLock"; "TryRLock"].

(** Whether a type with the methods [have] can be used where the methods
    [want] are required (by name). *)
Definition implements (have want : list string) : bool :=
  forallb (fun m => existsb (String.eqb m) have) want.

(** The store holding the records [l], with its mutex free. *)
Definition store (l : list Interval) : inMemoryRepo := mkRepo zeroRWMutex l.

(** The stores reached from [NewInMemoryRepo()] by [n] calls of [Create]
    and any number of calls of [Update], on intervals whose [ID] is an
    [int64]. *)
Inductive reached : nat -> inMemoryRepo -> Prop :=
| reached_new : reached 0 NewInMemoryRepo
| reached_Create n r i o r' :
    reached n r -> Create i r = (o, r') -> reached (S n) r'
| reached_Update n r i o r' :
    reached n r -> is_int64 (ID i) -> Update i r = (o, r') -> reached n r'.

(** The record at position [k] carries the id [k + 1]. *)
Definition ids_sequential (r : inMemoryRepo) : Prop :=
  forall (k : nat) (i : Interval),
    intervals r !! k = Some i -> ID i = Z.of_nat k + 1.

End repository.

(** * The persistence contract and the reference definitions *)

Module contract.

Import pomodoro.

Local Open Scope go_scope.

(** A rest category is [ShortBreak] or [LongBreak]. *)
Definition is_rest (i : Interval) : bool :=
  (Category i =? CategoryShortBreak)%string
  || (Category i =? CategoryLongBreak)%string.

Definition is_long_rest (i : Interval) : bool :=
  (Category i =? CategoryLongBreak)%string.

(** The category of an interval is one of the three constants. *)
Definition has_category (i : Interval) : bool :=
  (Category i =? CategoryPomodoro)%string || is_rest i.

(** The up to [n] most recent rest intervals of a history (oldest
    interval first), most recent first. *)
Definition recent_rests (n : nat) (history : list Interval) : list Interval :=
  firstn n (List.filter is_rest (rev history)).

(** The three rules of the category sequencer, on a history. *)
Definition nextCategory_rules (history : list Interval) : string :=
  match last history with
  | None => CategoryPomodoro
  | Some li =>
      if is_rest li then CategoryPomodoro
      else
        let rests := recent_rests 3 history in
        if (length rests <? 3)%nat then CategoryLongBreak
        else if existsb is_long_rest rests then CategoryShortBreak
        else CategoryLongBreak
  end.

Section Answers.

Context {W : Type}.
Variable repo : Repository W.

(** In the state [w], [last()] answers for the history: it fails with
    [ErrNoIntervals] when the history is empty and returns its most recent
    interval otherwise, leaving the state as it is. *)
Definition Last_answers (w : W) (history : list Interval) : Prop :=
  match last history with
  | None => exists li, Last repo w = (Returns (li, Some ErrNoIntervals), w)
  | Some i => Last repo w = (Returns (i, None), w)
  end.

(** In the state [w], [breaks(n)] answers for the history. *)
Definition Breaks_answers (w : W) (history : list Interval) : Prop :=
  forall n : Z, 0 <= n ->
    Breaks repo n w = (Returns (recent_rests (Z.to_nat n) history, None), w).

End Answers.

(** Modelled from the spec: the [Last] method of the store, which
    inMemory.go does not define ("last() -> interval | error -- fails with
    NoIntervals when the store is empty"). *)
Definition Last : M repository.inMemoryRepo (Interval * option error) :=
  let! _ := repository.RLock in
  repository.defer repository.RUnlock (fun r =>
    match last (repository.intervals r) with
    | None => (Returns (zeroInterval, Some ErrNoIntervals), r)
    | Some i => (Returns (i, None), r)
    end).

(** Modelled from the spec: [breaks(n)], "ordered sequence of up to n
    most-recent rest intervals, most recent first".  The [Breaks] of
    inMemory.go releases a read lock that it has not acquired, and cannot
    stand for it. *)
Definition Breaks (n : Z) : M repository.inMemoryRepo (list Interval * option error) :=
  let! _ := repository.RLock in
  repository.defer repository.RUnlock (fun r =>
    (Returns (recent_rests (Z.to_nat n) (repository.intervals r), None), r)).

(** A store that has the five operations of the contract: the three of
    inMemory.go that return, and the two above. *)
Definition memoryStore : Repository repository.inMemoryRepo := {|
  pomodoro.Create := repository.Create;
  pomodoro.Update := repository.Update;
  pomodoro.ByID := repository.ByID;
  pomodoro.Last := Last;
  pomodoro.Breaks := Breaks
|}.

End contract.

(** * Observing the callbacks *)

Module observe.

Import pomodoro.

Inductive callback_name : Type :=
| OnStart
| OnPeriodic
| OnEnd.

(** The calls made so far: which callback, on which interval. *)
Definition calls : Type := list (callback_name * Interval).

Definition is_OnEnd (c : callback_name * Interval) : bool :=
  match fst c with
  | OnEnd => true
  | _ => false
  end.

Definition count_OnEnd (log : calls) : nat := length (List.filter is_OnEnd log).

Section Observed.

Context {R : Type}.
Variable repo : Repository R.

(** An operation of the repository, in a state that also holds the calls. *)
Definition lift {A} (m : M R A) : M (R * calls) A :=
  fun w => let (o, r') := m (fst w) in (o, (r', snd w)).

Definition observed : Repository (R * calls) := {|
  Create := fun i => lift (Create repo i);
  Update := fun i => lift (Update repo i);
  ByID := fun id => lift (ByID repo id);
  Last := lift (Last repo);
  Breaks := fun n => lift (Breaks repo n)
|}.

(** A callback that does nothing but record that it was called. *)
Definition record (name : callback_name) : Interval -> M (R * calls) unit :=
  fun i w => (Returns tt, (fst w, snd w ++ [(name, i)])).

End Observed.

(** The first event of [ready] that does not come from the ticker: the
    one that ends the loop of [tick], if the loop gets that far. *)
Fixpoint ending (ready : list event) : option event :=
  match ready with
  | [] => None
  | TickerC :: ready' => ending ready'
  | e :: _ => Some e
  end.

(** Between the calls [before] and the calls [after] of a run on the
    events [ready], the end callback was not called, or it was called once
    and the event that ends the loop is the expiry of the timer. *)
Definition ends_once (before : calls) (ready : list event) (after : calls) : Prop :=
  count_OnEnd after = count_OnEnd before
  \/ (count_OnEnd after = S (count_OnEnd before) /\ ending ready = Some Expire).

End observe.

(** * Sample inputs *)

Module samples.

Import pomodoro.

Definition sample (category : string) : Interval :=
  mkInterval 0 0 0 0 category StateDone.

(** A history whose three most recent rests are short ones, and whose
    most recent interval is a work interval. *)
Definition three_short_rests : list Interval :=
  [sample CategoryShortBreak; sample CategoryPomodoro;
   sample CategoryShortBreak; sample CategoryPomodoro;
   sample CategoryShortBreak; sample CategoryPomodoro].

(** The first interval of a store, in each state. *)
Definition first_in (state : Z) : Interval :=
  mkInterval 1 0 (3 * Second) Second CategoryPomodoro state.

Definition default_config : IntervalConfig := NewConfig 0 0 0.

(** A callback that does nothing. *)
Definition silent {W : Type} : Interval -> M W unit := fun _ => ret tt.

End samples.

(** * Runs of the timer *)

Module runs.

Import pomodoro.

(** [k] receptions from the ticker's channel in a row. *)
Definition ticks (k : nat) : list event := repeat TickerC k.

(** The interval after [k] more seconds were counted. *)
Definition elapsed (k : nat) (i : Interval) : Interval :=
  with_ActualDuration (ActualDuration i + Z.of_nat k * Second) i.

(** The calls of the periodic callback during [k] ticks that start from
    the interval [i]: one per tick, on the interval as just updated. *)
Definition periodic_calls (k : nat) (i : Interval) : observe.calls :=
  map (fun j => (observe.OnPeriodic, elapsed (S j) i)) (seq 0 k).

(** The interval that [Start] hands to [Update]: the caller's copy, in
    state [StateRunning], with the start time set when it was not
    started before. *)
Definition started (now : Time) (i : Interval) : Interval :=
  with_State StateRunning
    (if State i =? StateNotStarted then with_StartTime now i else i).

(** The position of the slice that the in-memory store uses for an id. *)
Definition position (id : Z) : nat := Z.to_nat (id - 1).

(** The intervals that the loop of [Breaks] keeps. *)
Definition not_work (i : Interval) : bool :=
  negb (Category i =? CategoryPomodoro)%string.

(** A repository that fails every call with the error [e]. *)
Definition failing (e : error) : Repository unit := {|
  Create := fun _ => ret (0, Some e);
  Update := fun _ => ret (Some e);
  ByID := fun _ => ret (zeroInterval, Some e);
  Last := ret (zeroInterval, Some e);
  Breaks := fun _ => ret ([], Some e)
|}.

(** A callback that panics when it is called. *)
Definition panicking {W : Type} : Interval -> M W unit :=
  fun _ w => (Panics "callback called", w).

End runs.

(** * Properties *)

Import pomodoro.

(** ** Helper facts *)

Lemma wrap64_id (z : Z) : is_int64 z -> wrap64 z = z.
Proof.
  unfold is_int64, min_int64, max_int64, wrap64. intros Hz.
  rewrite Z.mod_small; lia.
Qed.

Lemma error_eqb_refl (e : error) : error_eqb e e = true.
Proof. unfold error_eqb. destruct (error_eq_dec e e); congruence. Qed.

Lemma length_ltb_3 {A} (l : list A) :
  (Z.of_nat (length l) <? 3) = (length l <? 3)%nat.
Proof.
  destruct (Nat.ltb_spec (length l) 3); [apply Z.ltb_lt | apply Z.ltb_ge]; lia.
Qed.

(** ** The embedding on the scenarios of the specification *)

Example rules_empty_history : contract.nextCategory_rules [] = CategoryPomodoro.
Proof. reflexivity. Qed.

Example rules_after_rest :
  contract.nextCategory_rules
    [samples.sample CategoryPomodoro; samples.sample CategoryShortBreak]
  = CategoryPomodoro.
Proof. reflexivity. Qed.

Example rules_fewer_than_three_rests :
  contract.nextCategory_rules
    [samples.sample CategoryPomodoro; samples.sample CategoryLongBreak;
     samples.sample CategoryPomodoro]
  = CategoryLongBreak.
Proof. reflexivity. Qed.

Example rules_three_short_rests :
  contract.nextCategory_rules samples.three_short_rests = CategoryLongBreak.
Proof. reflexivity. Qed.

Example rules_long_rest_among_three :
  contract.nextCategory_rules
    (samples.sample CategoryLongBreak :: samples.sample CategoryPomodoro
       :: samples.three_short_rests)
  = CategoryLongBreak
  /\ contract.nextCategory_rules
       [samples.sample CategoryShortBreak; samples.sample CategoryLongBreak;
        samples.sample CategoryShortBreak; samples.sample CategoryPomodoro]
     = CategoryShortBreak.
Proof. split; reflexivity. Qed.

(** Three ticks and the expiry of the timer on an interval planned for
    three seconds: the interval ends in [StateDone] with three seconds
    elapsed, and the end callback is called once. *)
Example tick_three_seconds :
  let i := mkInterval 1 0 (3 * Second) 0 CategoryPomodoro StateRunning in
  let run :=
    tick (observe.observed contract.memoryStore)
      [TickerC; TickerC; TickerC; Expire] 1 samples.default_config
      (observe.record observe.OnStart) (observe.record observe.OnPeriodic)
      (observe.record observe.OnEnd) (repository.store [i], []) in
  fst run = Returns None
  /\ fst (snd run)
     = repository.store
         [mkInterval 1 0 (3 * Second) (3 * Second) CategoryPomodoro StateDone]
  /\ observe.count_OnEnd (snd (snd run)) = 1%nat.
Proof. repeat split. Qed.

(** [Start] on a new interval, one tick, then the cancellation. *)
Example Start_then_cancel :
  let i := mkInterval 1 0 (3 * Second) 0 CategoryPomodoro StateNotStarted in
  let run :=
    Start (observe.observed contract.memoryStore) i 42 [TickerC; CtxDone]
      samples.default_config
      (observe.record observe.OnStart) (observe.record observe.OnPeriodic)
      (observe.record observe.OnEnd) (repository.store [i], []) in
  fst run = Returns None
  /\ fst (snd run)
     = repository.store
         [mkInterval 1 42 (3 * Second) Second CategoryPomodoro StateCancelled]
  /\ observe.count_OnEnd (snd (snd run)) = 0%nat.
Proof. repeat split. Qed.

(** ** The category sequencer *)

Section CategorySequencer.

Context {W : Type}.
Variable repo : Repository W.

(** C1. When the repository answers [last()] and [breaks(n)] for a history
    as the persistence contract says, [nextCategory] returns, without
    error and leaving the state as it is, the category that the three
    rules give for that history: [Pomodoro] for an empty history;
    [Pomodoro] when the most recent interval has a rest category;
    otherwise [LongBreak] when the up to three most recent rest intervals
    are fewer than three, [ShortBreak] when one of the three is a
    [LongBreak], and [LongBreak] when none is. *)
Theorem nextCategory_follows_rules (w : W) (history : list Interval) :
  contract.Last_answers repo w history ->
  contract.Breaks_answers repo w history ->
  nextCategory repo w = (Returns (contract.nextCategory_rules history, None), w).
Proof.
  unfold contract.Last_answers, contract.nextCategory_rules, nextCategory, bind.
  intros HL HB.
  destruct (last history) as [li|].
  - rewrite HL. unfold contract.is_rest.
    rewrite (orb_comm (Category li =? CategoryShortBreak)%string).
    destruct ((Category li =? CategoryLongBreak)%string
              || (Category li =? CategoryShortBreak)%string); [reflexivity|].
    rewrite (HB 3) by lia.
    change (Z.to_nat 3) with 3%nat.
    rewrite length_ltb_3.
    destruct (length (contract.recent_rests 3 history) <? 3)%nat; [reflexivity|].
    fold contract.is_long_rest.
    change (fun i : Interval => contract.is_long_rest i) with contract.is_long_rest.
    destruct (existsb contract.is_long_rest (contract.recent_rests 3 history));
      reflexivity.
  - destruct HL as [li HL]. rewrite HL. reflexivity.
Qed.

End CategorySequencer.

(** The store of the contract answers for the records it holds. *)
Lemma memoryStore_answers (l : list Interval) :
  contract.Last_answers contract.memoryStore (repository.store l) l
  /\ contract.Breaks_answers contract.memoryStore (repository.store l) l.
Proof.
  split.
  - unfold contract.Last_answers.
    destruct (last l) as [i|] eqn:E.
    + cbn. unfold contract.Last, bind, repository.defer. cbn. rewrite E. reflexivity.
    + exists zeroInterval. cbn. unfold contract.Last, bind, repository.defer. cbn.
      rewrite E. reflexivity.
  - intros n _. reflexivity.
Qed.

Lemma nextCategory_follows_rules_witness :
  nextCategory contract.memoryStore (repository.store samples.three_short_rests)
  = (Returns (CategoryLongBreak, None), repository.store samples.three_short_rests).
Proof.
  apply (nextCategory_follows_rules contract.memoryStore
           (repository.store samples.three_short_rests) samples.three_short_rests).
  - vm_compute. reflexivity.
  - intros n Hn. reflexivity.
Defined.

(** ** The interval factory *)

Section IntervalFactory.

Context {W : Type}.
Variable repo : Repository W.

(** C3. On a store that [Last] finds empty, [GetInterVal] has the store
    create an interval of category [Pomodoro], in state [StateNotStarted],
    whose planned duration is the configured work duration, and returns
    it with the id that the store gave it; the configured work duration is
    25 minutes when [NewConfig] was given zero, and the given duration
    when that is positive. *)
Theorem GetInterVal_empty_store
  (pomodoro shortBreak longBreak : Duration) (w w' : W) (li : Interval) (id : Z) :
  let config := NewConfig pomodoro shortBreak longBreak in
  let i := mkInterval 0 0 (PomodoroDuration config) 0 CategoryPomodoro StateNotStarted in
  Last repo w = (Returns (li, Some ErrNoIntervals), w) ->
  Create repo i w = (Returns (id, None), w') ->
  GetInterVal repo config w = (Returns (with_ID id i, None), w')
  /\ Category (with_ID id i) = CategoryPomodoro
  /\ State (with_ID id i) = StateNotStarted
  /\ (pomodoro = 0 -> PlannedDuration (with_ID id i) = 25 * Minute)
  /\ (0 < pomodoro -> PlannedDuration (with_ID id i) = pomodoro).
Proof.
  intros config i HL HC. split; [|split; [reflexivity|split; [reflexivity|split]]].
  - unfold GetInterVal, newInterval, nextCategory, bind.
    rewrite HL. cbn. rewrite HL. cbn.
    change (with_PlannedDuration (PomodoroDuration config)
              (with_Category CategoryPomodoro zeroInterval)) with i.
    rewrite HC. reflexivity.
  - intros ->. cbn. unfold config, NewConfig. cbn.
    destruct (0 <? shortBreak), (0 <? longBreak); reflexivity.
  - intros Hp. cbn. unfold config, NewConfig.
    apply Z.ltb_lt in Hp. rewrite Hp. cbn.
    destruct (0 <? shortBreak), (0 <? longBreak); reflexivity.
Qed.

End IntervalFactory.

Lemma GetInterVal_empty_store_witness :
  GetInterVal contract.memoryStore (NewConfig 0 0 0) repository.NewInMemoryRepo
  = (Returns (mkInterval 1 0 (25 * Minute) 0 CategoryPomodoro StateNotStarted, None),
     repository.store
       [mkInterval 1 0 (25 * Minute) 0 CategoryPomodoro StateNotStarted]).
Proof.
  refine (proj1 (GetInterVal_empty_store contract.memoryStore 0 0 0
                   repository.NewInMemoryRepo _ zeroInterval 1 _ _)).
  - reflexivity.
  - reflexivity.
Defined.

(** ** The session controller *)

Section SessionController.

Context {W : Type}.
Variable repo : Repository W.

(** C9. [Start] on an interval whose state is [StateRunning] returns [nil]
    and leaves the state as it is, whatever the callbacks and the events
    are: the repository is not called (so nothing is written, and neither
    the start time nor the elapsed time changes), [tick] is not run, and
    no callback is called. *)
Theorem Start_running_is_noop
  (i : Interval) (now : Time) (ready : list event) (config : IntervalConfig)
  (start periodic end_ : Callback) (w : W) :
  State i = StateRunning ->
  Start repo i now ready config start periodic end_ w = (Returns None, w).
Proof.
  intros Hs. unfold Start. rewrite Hs. reflexivity.
Qed.

(** C7. [Start] on an interval whose state is [StateDone] or
    [StateCancelled] returns an error that wraps [ErrIntervalCompleted],
    and leaves the state as it is, whatever the callbacks and the events
    are: the repository is not called and no callback is called. *)
Theorem Start_completed_fails
  (i : Interval) (now : Time) (ready : list event) (config : IntervalConfig)
  (start periodic end_ : Callback) (w : W) :
  State i = StateDone \/ State i = StateCancelled ->
  Start repo i now ready config start periodic end_ w
  = (Returns (Some (Errorf "%w: Cannot start" ErrIntervalCompleted [])), w)
  /\ errors_Is (Errorf "%w: Cannot start" ErrIntervalCompleted [])
       ErrIntervalCompleted = true.
Proof.
  intros Hs. split; [|reflexivity].
  unfold Start. destruct Hs as [Hs|Hs]; rewrite Hs; reflexivity.
Qed.

(** C8. [Pause] on an interval whose state is not [StateRunning] returns
    [ErrIntervalNotRunning] and leaves the state as it is; on an interval
    whose state is [StateRunning] it is the [Update] of the repository on
    the interval with its state set to [StatePaused]; so [Pause] returns
    [nil] only from [StateRunning]. *)
Theorem Pause_only_from_running (i : Interval) (config : IntervalConfig) (w : W) :
  (State i <> StateRunning ->
   Pause repo i config w = (Returns (Some ErrIntervalNotRunning), w))
  /\ (State i = StateRunning ->
      Pause repo i config w = Update repo (with_State StatePaused i) w)
  /\ (forall w', Pause repo i config w = (Returns None, w') ->
                 State i = StateRunning).
Proof.
  assert (Hne : State i <> StateRunning ->
                Pause repo i config w = (Returns (Some ErrIntervalNotRunning), w)).
  { intros Hs. unfold Pause. apply Z.eqb_neq in Hs. rewrite Hs. reflexivity. }
  split; [exact Hne|split].
  - intros Hs. unfold Pause. rewrite Hs. reflexivity.
  - intros w' Hp. destruct (Z.eq_dec (State i) StateRunning) as [Hs|Hs]; [exact Hs|].
    rewrite (Hne Hs) in Hp. discriminate.
Qed.

End SessionController.

Lemma Start_running_is_noop_witness :
  Start contract.memoryStore (samples.first_in StateRunning) 7 [TickerC; Expire]
    samples.default_config samples.silent samples.silent samples.silent
    (repository.store [samples.first_in StateRunning])
  = (Returns None, repository.store [samples.first_in StateRunning]).
Proof.
  apply (Start_running_is_noop contract.memoryStore (samples.first_in StateRunning)).
  reflexivity.
Defined.

Lemma Start_completed_fails_witness :
  Start contract.memoryStore (samples.first_in StateDone) 7 [TickerC; Expire]
    samples.default_config samples.silent samples.silent samples.silent
    (repository.store [samples.first_in StateDone])
  = (Returns (Some (Errorf "%w: Cannot start" ErrIntervalCompleted [])),
     repository.store [samples.first_in StateDone]).
Proof.
  refine (proj1 (Start_completed_fails contract.memoryStore
                   (samples.first_in StateDone) _ _ _ _ _ _ _ _)).
  left. reflexivity.
Defined.

Lemma Pause_only_from_running_witness :
  Pause contract.memoryStore (samples.first_in StatePaused) samples.default_config
    (repository.store [samples.first_in StatePaused])
  = (Returns (Some ErrIntervalNotRunning),
     repository.store [samples.first_in StatePaused])
  /\ Pause contract.memoryStore (samples.first_in StateRunning) samples.default_config
       (repository.store [samples.first_in StateRunning])
     = (Returns None, repository.store [samples.first_in StatePaused]).
Proof.
  split.
  - refine (proj1 (Pause_only_from_running contract.memoryStore
                     (samples.first_in StatePaused) _ _) _).
    vm_compute. discriminate.
  - rewrite (proj1 (proj2 (Pause_only_from_running contract.memoryStore
                             (samples.first_in StateRunning) samples.default_config
                             (repository.store [samples.first_in StateRunning])))).
    + reflexivity.
    + reflexivity.
Defined.

(** ** The tick engine *)

Section TickEngine.

Context {R : Type}.
Variable repo : Repository R.

(** A tick on an interval that is not paused: the elapsed time grows by
    one second, the interval is updated, the periodic callback is called
    on it, and the loop goes on. *)
Lemma tick_counts_a_second
  (ready : list event) (id : Z) (periodic end_ : Callback)
  (w w1 w2 w3 : R) (i : Interval) :
  ByID repo id w = (Returns (i, None), w1) ->
  State i <> StatePaused ->
  let i' := with_ActualDuration (wrap64 (ActualDuration i + Second)) i in
  Update repo i' w1 = (Returns None, w2) ->
  periodic i' w2 = (Returns tt, w3) ->
  tick_loop repo (TickerC :: ready) id periodic end_ w
  = tick_loop repo ready id periodic end_ w3.
Proof.
  intros Hr Hs i' Hu Hp. cbn. unfold bind. rewrite Hr.
  apply Z.eqb_neq in Hs. rewrite Hs. fold i'. rewrite Hu, Hp. reflexivity.
Qed.

(** C5. When the ticker fires and the interval that [tick] reads again is
    in state [StatePaused], the loop returns [nil] at once, in the state
    that the reading left, whatever the callbacks and the later events
    are: the elapsed time is not incremented, [Update] is not called, and
    the periodic callback is not called. *)
Theorem tick_stops_on_pause
  (ready : list event) (id : Z) (periodic end_ : Callback)
  (w w1 : R) (i : Interval) :
  ByID repo id w = (Returns (i, None), w1) ->
  State i = StatePaused ->
  tick_loop repo (TickerC :: ready) id periodic end_ w = (Returns None, w1).
Proof.
  intros Hr Hs. cbn. unfold bind. rewrite Hr, Hs. reflexivity.
Qed.

End TickEngine.

Lemma tick_stops_on_pause_witness :
  tick_loop contract.memoryStore [TickerC; TickerC; Expire] 1
    samples.silent samples.silent
    (repository.store [samples.first_in StatePaused])
  = (Returns None, repository.store [samples.first_in StatePaused]).
Proof.
  apply (tick_stops_on_pause contract.memoryStore [TickerC; Expire] 1
           samples.silent samples.silent _ _ (samples.first_in StatePaused)).
  - reflexivity.
  - reflexivity.
Defined.

Section Cancellation.

Context {R : Type}.
Variable repo : Repository R.

Import observe.

Lemma count_OnEnd_app (log : calls) (name : callback_name) (i : Interval) :
  count_OnEnd (log ++ [(name, i)])
  = (count_OnEnd log + if is_OnEnd (name, i) then 1 else 0)%nat.
Proof.
  unfold count_OnEnd. rewrite List.filter_app, length_app. cbn [List.filter].
  destruct (is_OnEnd (name, i)); reflexivity.
Qed.

Lemma lift_calls {A} (m : M R A) (w : R * calls) : snd (snd (lift m w)) = snd w.
Proof. unfold lift. destruct (m (fst w)). reflexivity. Qed.

Lemma ends_once_refl (log : calls) (ready : list event) : ends_once log ready log.
Proof. left. reflexivity. Qed.

Lemma ends_once_other (log : calls) (ready : list event) (after : calls)
  (name : callback_name) (i : Interval) :
  is_OnEnd (name, i) = false ->
  ends_once (log ++ [(name, i)]) ready after -> ends_once log ready after.
Proof.
  unfold ends_once. rewrite count_OnEnd_app. intros ->.
  rewrite Nat.add_0_r. trivial.
Qed.

(** The loop of [tick] calls the end callback once when it ends on the
    [expire] timer, and not at all otherwise. *)
Lemma tick_loop_OnEnd (id : Z) (ready : list event) (r : R) (log : calls) :
  ends_once log ready
    (snd (snd (tick_loop (observed repo) ready id
                 (record OnPeriodic) (record OnEnd) (r, log)))).
Proof.
  revert r log. induction ready as [|e ready IH]; intros r log.
  - apply ends_once_refl.
  - destruct e; cbn [tick_loop]; unfold bind; cbn [ByID Update observed];
      unfold lift at 1; cbn [fst snd];
      destruct (ByID repo id r) as [[[i [err|]]|msg|] r1]; cbn [fst snd];
      try apply ends_once_refl.
    + destruct (State i =? StatePaused); [apply ends_once_refl|].
      unfold lift; cbn [fst snd].
      destruct (Update repo _ r1) as [[[err|]|msg|] r2]; cbn [fst snd];
        try apply ends_once_refl.
      unfold record at 1; cbn [fst snd].
      eapply ends_once_other; [|apply IH]. reflexivity.
    + unfold record, lift; cbn [fst snd].
      destruct (Update repo _ r1) as [o r2]; cbn [fst snd].
      right. split; [|reflexivity].
      rewrite count_OnEnd_app. cbn. lia.
    + unfold lift; cbn [fst snd].
      destruct (Update repo _ r1) as [o r2]. apply ends_once_refl.
Qed.

Lemma tick_OnEnd (id : Z) (config : IntervalConfig) (ready : list event)
  (r : R) (log : calls) :
  ends_once log ready
    (snd (snd (tick (observed repo) ready id config
                 (record OnStart) (record OnPeriodic) (record OnEnd) (r, log)))).
Proof.
  unfold tick, bind; cbn [ByID observed]; unfold lift at 1; cbn [fst snd].
  destruct (ByID repo id r) as [[[i [err|]]|msg|] r1]; cbn [fst snd];
    try apply ends_once_refl.
  unfold record at 1; cbn [fst snd].
  eapply ends_once_other; [|apply tick_loop_OnEnd]. reflexivity.
Qed.

(** C6. When the [select] of [tick] receives from [ctx.Done()], the loop
    reads the interval again, sets its state to [StateCancelled], has the
    repository update it, and returns what [Update] returns, whatever the
    callbacks are; the elapsed time written is the one that was read.
    With callbacks that record their calls, a run of [tick] adds at most
    one call of the end callback, adds one only when the event that ends
    the loop is the expiry of the timer, and adds none when that event is
    the cancellation. *)
Theorem tick_cancel_and_OnEnd :
  (forall (ready : list event) (id : Z) (periodic end_ : Callback)
          (w w1 : R) (i : Interval),
      ByID repo id w = (Returns (i, None), w1) ->
      tick_loop repo (CtxDone :: ready) id periodic end_ w
      = Update repo (with_State StateCancelled i) w1
      /\ State (with_State StateCancelled i) = StateCancelled
      /\ ActualDuration (with_State StateCancelled i) = ActualDuration i)
  /\ (forall (ready : list event) (id : Z) (config : IntervalConfig)
             (r : R) (log : calls),
        let after :=
          snd (snd (tick (observed repo) ready id config
                      (record OnStart) (record OnPeriodic) (record OnEnd)
                      (r, log))) in
        (count_OnEnd after <= S (count_OnEnd log))%nat
        /\ (count_OnEnd after <> count_OnEnd log -> ending ready = Some Expire)
        /\ (ending ready = Some CtxDone -> count_OnEnd after = count_OnEnd log)).
Proof.
  split.
  - intros ready id periodic end_ w w1 i Hr. split; [|split; reflexivity].
    cbn. unfold bind. rewrite Hr. reflexivity.
  - intros ready id config r log after.
    destruct (tick_OnEnd id config ready r log) as [H|[H He]];
      fold after in H; rewrite H; repeat split; try lia; try congruence.
Qed.

End Cancellation.

Lemma tick_cancel_and_OnEnd_witness :
  tick_loop contract.memoryStore [CtxDone] 1 samples.silent samples.silent
    (repository.store [samples.first_in StateRunning])
  = (Returns None, repository.store [samples.first_in StateCancelled])
  /\ observe.count_OnEnd
       (snd (snd (tick (observe.observed contract.memoryStore)
                    [TickerC; CtxDone] 1 samples.default_config
                    (observe.record observe.OnStart)
                    (observe.record observe.OnPeriodic)
                    (observe.record observe.OnEnd)
                    (repository.store [samples.first_in StateRunning], []))))
     = 0%nat.
Proof.
  split.
  - rewrite (proj1 (proj1 (tick_cancel_and_OnEnd contract.memoryStore)
                      [] 1 samples.silent samples.silent
                      (repository.store [samples.first_in StateRunning])
                      (repository.store [samples.first_in StateRunning])
                      (samples.first_in StateRunning) eq_refl)).
    reflexivity.
  - apply (proj2 (proj2 (proj2 (tick_cancel_and_OnEnd contract.memoryStore)
                           [TickerC; CtxDone] 1 samples.default_config
                           (repository.store [samples.first_in StateRunning]) []))).
    reflexivity.
Defined.

(** ** The in-memory store *)

Section InMemory.

Import repository.

Lemma Create_store (l : list Interval) (i : Interval) :
  let id := wrap64 (Z.of_nat (length l) + 1) in
  Create i (store l) = (Returns (id, None), store (l ++ [with_ID id i])).
Proof. reflexivity. Qed.

Lemma Update_store (l : list Interval) (i : Interval) :
  Update i (store l)
  = if ID i =? 0 then (Returns (Some (Errorf "%w: %d" ErrInvalidID [ID i])), store l)
    else match index l (wrap64 (ID i - 1)) with
         | None => (Panics index_panic, store l)
         | Some _ => (Returns None, store (<[Z.to_nat (wrap64 (ID i - 1)) := i]> l))
         end.
Proof.
  unfold Update, bind, defer, store. cbn.
  destruct (ID i =? 0); [reflexivity|].
  destruct (index l (wrap64 (ID i - 1))); reflexivity.
Qed.

Lemma ByID_store (l : list Interval) (id : Z) :
  ByID id (store l)
  = if id =? 0
    then (Returns (zeroInterval, Some (Errorf "%w: %d" ErrInvalidID [id])), store l)
    else match index l (wrap64 (id - 1)) with
         | None => (Panics index_panic, store l)
         | Some i => (Returns (i, None), store l)
         end.
Proof.
  unfold ByID, bind, defer, store. cbn.
  destruct (id =? 0); [reflexivity|].
  destruct (index l (wrap64 (id - 1))); reflexivity.
Qed.

(** [Breaks] computes its result and then fails in the deferred
    [RUnlock]: [RLocker()] has not acquired the read lock. *)
Lemma Breaks_store (l : list Interval) (n : Z) :
  Breaks n (store l)
  = (Panics "fatal error: sync: RUnlock of unlocked RWMutex", store l).
Proof. reflexivity. Qed.

(** What the loop of [Breaks] collects, on intervals that have one of the
    three categories, is what [breaks(n)] of the contract asks for. *)
Lemma Breaks_loop_collects (n : Z) (downwards data : list Interval) :
  forallb contract.has_category downwards = true ->
  Z.of_nat (length data) < n ->
  Breaks_loop n downwards data
  = data ++ firstn (Z.to_nat n - length data)
              (List.filter contract.is_rest downwards).
Proof.
  revert data. induction downwards as [|x d IH]; intros data Hv Hlen.
  - cbn. rewrite firstn_nil, app_nil_r. reflexivity.
  - cbn [forallb] in Hv. apply andb_prop in Hv. destruct Hv as [Hx Hd].
    cbn [Breaks_loop List.filter]. unfold contract.has_category in Hx.
    destruct (Category x =? CategoryPomodoro)%string eqn:Hp.
    + apply String.eqb_eq in Hp. unfold contract.is_rest at 1. rewrite Hp. cbn.
      apply IH; assumption.
    + cbn in Hx. rewrite Hx. rewrite length_app. cbn [length].
      destruct (Z.eqb_spec (Z.of_nat (length data + 1)) n) as [Hn|Hn].
      * replace (Z.to_nat n - length data)%nat with 1%nat by lia.
        cbn. rewrite firstn_0. reflexivity.
      * rewrite IH by (try assumption; rewrite length_app; cbn; lia).
        rewrite length_app. cbn [length].
        replace (Z.to_nat n - length data)%nat
          with (S (Z.to_nat n - (length data + 1)))%nat by lia.
        cbn. rewrite <- app_assoc. reflexivity.
Qed.

Lemma Breaks_loop_recent_rests (n : Z) (l : list Interval) :
  forallb contract.has_category l = true ->
  0 < n ->
  Breaks_loop n (rev l) [] = contract.recent_rests (Z.to_nat n) l.
Proof.
  intros Hv Hn. rewrite Breaks_loop_collects.
  - cbn. rewrite Nat.sub_0_r. reflexivity.
  - rewrite forallb_forall in *. intros x Hx. apply Hv, in_rev, Hx.
  - cbn. lia.
Qed.

Lemma index_Some (l : list Interval) (k : Z) (x : Interval) :
  index l k = Some x -> 0 <= k < Z.of_nat (length l) /\ l !! Z.to_nat k = Some x.
Proof.
  unfold index. destruct (Z.ltb_spec k 0); [discriminate|].
  intros Hk. split; [|exact Hk].
  apply lookup_lt_Some in Hk. lia.
Qed.

Lemma index_None (l : list Interval) (k : Z) :
  k < 0 \/ Z.of_nat (length l) <= k -> index l k = None.
Proof.
  unfold index. destruct (Z.ltb_spec k 0); [reflexivity|].
  intros [Hk|Hk]; [lia|]. apply lookup_ge_None. lia.
Qed.

(** The index that [Update] and [ByID] compute for an id that is not the
    id of a position of the slice is out of range. *)
Lemma unknown_id_index (l : list Interval) (id : Z) :
  is_int64 id -> Z.of_nat (length l) <= max_int64 ->
  id <= 0 \/ Z.of_nat (length l) < id ->
  index l (wrap64 (id - 1)) = None.
Proof.
  intros Hid Hlen Hno. apply index_None.
  destruct (Z.eq_dec id min_int64) as [->|Hmin].
  - right. change (wrap64 (min_int64 - 1)) with max_int64. exact Hlen.
  - rewrite wrap64_id by (unfold is_int64, min_int64, max_int64 in *; lia). lia.
Qed.

(** The claim as C2 states it fails: on the empty store, [Update] and
    [ByID] with the id 1 do not return an error, they panic. *)
Lemma unknown_id_panics :
  Update (with_ID 1 zeroInterval) NewInMemoryRepo
  = (Panics index_panic, NewInMemoryRepo)
  /\ ByID 1 NewInMemoryRepo = (Panics index_panic, NewInMemoryRepo)
  /\ ~ (exists (e : error) (r : inMemoryRepo),
          Update (with_ID 1 zeroInterval) NewInMemoryRepo = (Returns (Some e), r))
  /\ ~ (exists (i : Interval) (e : error) (r : inMemoryRepo),
          ByID 1 NewInMemoryRepo = (Returns (i, Some e), r)).
Proof.
  repeat split.
  - intros (e & r & H). discriminate H.
  - intros (i & e & r & H). discriminate H.
Qed.

(** C2, amended. On a store whose mutex is free, for an id that is not the
    id of a position of the slice (zero, negative, or greater than the
    number of records): with the id zero, [Update] and [ByID] return an
    error that wraps [ErrInvalidID]; with any other such id they do not
    return, they panic with an index out of range.  The store is left as
    it was in each case. *)
Theorem Update_ByID_unknown_id (l : list Interval) (i : Interval) :
  is_int64 (ID i) ->
  Z.of_nat (length l) <= max_int64 ->
  ID i <= 0 \/ Z.of_nat (length l) < ID i ->
  (ID i = 0 ->
   Update i (store l) = (Returns (Some (Errorf "%w: %d" ErrInvalidID [0])), store l)
   /\ ByID (ID i) (store l)
      = (Returns (zeroInterval, Some (Errorf "%w: %d" ErrInvalidID [0])), store l)
   /\ errors_Is (Errorf "%w: %d" ErrInvalidID [0]) ErrInvalidID = true)
  /\ (ID i <> 0 ->
      Update i (store l) = (Panics index_panic, store l)
      /\ ByID (ID i) (store l) = (Panics index_panic, store l)).
Proof.
  intros Hid Hlen Hno. rewrite Update_store, ByID_store. split.
  - intros ->. repeat split; reflexivity.
  - intros Hnz. apply Z.eqb_neq in Hnz. rewrite Hnz.
    rewrite (unknown_id_index l (ID i) Hid Hlen Hno). split; reflexivity.
Qed.

Lemma Update_ByID_unknown_id_witness :
  Update (with_ID 5 zeroInterval) (store [samples.first_in StateRunning])
  = (Panics index_panic, store [samples.first_in StateRunning])
  /\ ByID 5 (store [samples.first_in StateRunning])
     = (Panics index_panic, store [samples.first_in StateRunning]).
Proof.
  refine (proj2 (Update_ByID_unknown_id [samples.first_in StateRunning]
                   (with_ID 5 zeroInterval) _ _ _) _).
  - vm_compute. split; discriminate.
  - vm_compute. discriminate.
  - right. vm_compute. reflexivity.
  - vm_compute. discriminate.
Defined.

(** C4. The method set of [*inMemoryRepo] has no [Last]: the type does
    not have the methods of [Repository]. *)
Theorem inMemoryRepo_has_no_Last :
  ~ In "Last" inMemoryRepo_methods
  /\ In "Last" Repository_methods
  /\ implements inMemoryRepo_methods Repository_methods = false.
Proof.
  split; [|split].
  - cbn. intros H. repeat (destruct H as [H|H]; [discriminate H|]). exact H.
  - cbn. tauto.
  - reflexivity.
Qed.

(** A reached store has its mutex free and holds as many records as
    [Create] was called. *)
Lemma reached_store (n : nat) (r : inMemoryRepo) :
  reached n r -> r = store (intervals r) /\ length (intervals r) = n.
Proof.
  induction 1 as [|n r i o r' _ [Hr Hn] Hc|n r i o r' _ [Hr Hn] _ Hu].
  - split; reflexivity.
  - rewrite Hr, Create_store in Hc. injection Hc as _ <-. cbn.
    rewrite length_app. cbn. split; [reflexivity|lia].
  - rewrite Hr, Update_store in Hu.
    destruct (ID i =? 0); [injection Hu as _ <-; split; [reflexivity|exact Hn]|].
    destruct (index (intervals r) (wrap64 (ID i - 1)));
      injection Hu as _ <-; cbn; rewrite ?length_insert;
      split; reflexivity || exact Hn.
Qed.

Lemma reached_ids_sequential (n : nat) (r : inMemoryRepo) :
  reached n r -> Z.of_nat n <= max_int64 -> ids_sequential r.
Proof.
  induction 1 as [|n r i o r' Hreach IH Hc|n r i o r' Hreach IH Hid Hu]; intros Hmax.
  - intros k x Hk. discriminate Hk.
  - destruct (reached_store n r Hreach) as [Hr Hn].
    rewrite Hr, Create_store in Hc. injection Hc as _ <-.
    intros k x. cbn. rewrite Hn.
    rewrite wrap64_id by (unfold is_int64, min_int64, max_int64 in *; lia).
    intros Hk. apply lookup_app_Some in Hk. destruct Hk as [Hk|[Hge Hk]].
    + apply IH; [lia|exact Hk].
    + rewrite Hn in Hge, Hk. apply list_lookup_singleton_Some in Hk.
      destruct Hk as [Hk <-]. cbn. lia.
  - destruct (reached_store n r Hreach) as [Hr Hn].
    rewrite Hr, Update_store in Hu.
    destruct (ID i =? 0); [injection Hu as _ <-; apply IH; exact Hmax|].
    destruct (index (intervals r) (wrap64 (ID i - 1))) as [y|] eqn:Hi;
      injection Hu as _ <-; [|apply IH; exact Hmax].
    apply index_Some in Hi. destruct Hi as [Hrange _].
    assert (Hw : wrap64 (ID i - 1) = ID i - 1).
    { destruct (Z.eq_dec (ID i) min_int64) as [Hmin|Hmin].
      - rewrite Hmin in Hrange. change (wrap64 (min_int64 - 1)) with max_int64 in Hrange.
        lia.
      - apply wrap64_id. unfold is_int64, min_int64, max_int64 in *. lia. }
    rewrite Hw in *.
    intros k x. cbn. intros Hk.
    destruct (Nat.eq_dec (Z.to_nat (ID i - 1)) k) as [<-|Hne].
    + rewrite list_lookup_insert_eq in Hk by lia. injection Hk as <-. lia.
    + rewrite list_lookup_insert_ne in Hk by exact Hne. apply (IH Hmax). exact Hk.
Qed.

(** C10. [Create] never returns an error.  In a store reached from the
    empty one by [n] calls of [Create] and any calls of [Update], that has
    room for one more record, a further [Create] returns the id [n + 1]
    and appends the interval with that id; and the record at position [k]
    carries the id [k + 1], so that every id is positive and no two
    positions carry the same id. *)
Theorem Create_assigns_sequential_ids (n : nat) (r : inMemoryRepo) :
  reached n r ->
  Z.of_nat n < max_int64 ->
  (forall (r0 r1 : inMemoryRepo) (i : Interval) (id : Z) (err : option error),
      Create i r0 = (Returns (id, err), r1) -> err = None)
  /\ (forall i : Interval,
        Create i r
        = (Returns (Z.of_nat n + 1, None),
           store (intervals r ++ [with_ID (Z.of_nat n + 1) i])))
  /\ ids_sequential r
  /\ (forall (k : nat) (i : Interval), intervals r !! k = Some i -> 0 < ID i)
  /\ (forall (k1 k2 : nat) (i1 i2 : Interval),
        intervals r !! k1 = Some i1 -> intervals r !! k2 = Some i2 ->
        ID i1 = ID i2 -> k1 = k2).
Proof.
  intros Hreach Hmax.
  assert (Hseq : ids_sequential r) by (apply (reached_ids_sequential n); [exact Hreach|lia]).
  destruct (reached_store n r Hreach) as [Hr Hn].
  split; [|split; [|split; [exact Hseq|split]]].
  - intros r0 r1 i id err. unfold Create, bind, Lock, on_mu.
    destruct (mutex_Lock (mu r0)); [|discriminate|discriminate].
    unfold defer, Unlock, on_mu. cbn.
    destruct (mutex_Unlock a); [|discriminate|discriminate].
    intros H. injection H as _ <- _. reflexivity.
  - intros i. rewrite Hr at 1. rewrite Create_store. cbn. rewrite Hn.
    rewrite wrap64_id by (unfold is_int64, min_int64, max_int64 in *; lia).
    reflexivity.
  - intros k i Hk. rewrite (Hseq k i Hk). lia.
  - intros k1 k2 i1 i2 H1 H2 Heq.
    rewrite (Hseq k1 i1 H1), (Hseq k2 i2 H2) in Heq. lia.
Qed.

Lemma Create_assigns_sequential_ids_witness :
  Create (samples.sample CategoryShortBreak)
    (store [mkInterval 1 0 (25 * Minute) 0 CategoryPomodoro StateDone])
  = (Returns (2, None),
     store [mkInterval 1 0 (25 * Minute) 0 CategoryPomodoro StateDone;
            mkInterval 2 0 0 0 CategoryShortBreak StateDone]).
Proof.
  refine (proj1 (proj2 (Create_assigns_sequential_ids 1
            (store [mkInterval 1 0 (25 * Minute) 0 CategoryPomodoro StateDone]) _ _)) _).
  - apply (reached_Update 1
             (store [mkInterval 1 0 (25 * Minute) 0 CategoryPomodoro StateNotStarted])
             (mkInterval 1 0 (25 * Minute) 0 CategoryPomodoro StateDone) (Returns None)).
    + apply (reached_Create 0 NewInMemoryRepo
               (mkInterval 0 0 (25 * Minute) 0 CategoryPomodoro StateNotStarted)
               (Returns (1, None))).
      * apply reached_new.
      * reflexivity.
    + vm_compute. split; discriminate.
    + reflexivity.
  - vm_compute. reflexivity.
Defined.

End InMemory.

(** * Further properties of the code *)

(** ** NewConfig *)

(** X1. [NewConfig] keeps each positive argument and replaces each
    argument that is zero or negative by its default of 25, 5 and 15
    minutes, each field on its own; the three durations of a
    configuration that it returns are positive. *)
Theorem NewConfig_durations (pomodoro shortBreak longBreak : Duration) :
  let c := NewConfig pomodoro shortBreak longBreak in
  PomodoroDuration c = (if 0 <? pomodoro then pomodoro else 25 * Minute)
  /\ ShortBreakDuration c = (if 0 <? shortBreak then shortBreak else 5 * Minute)
  /\ LongBreakDuration c = (if 0 <? longBreak then longBreak else 15 * Minute)
  /\ 0 < PomodoroDuration c
  /\ 0 < ShortBreakDuration c
  /\ 0 < LongBreakDuration c.
Proof.
  unfold NewConfig.
  destruct (Z.ltb_spec 0 pomodoro), (Z.ltb_spec 0 shortBreak),
    (Z.ltb_spec 0 longBreak); cbn; repeat split; try assumption; reflexivity.
Qed.

(** ** The category sequencer and the factory, on any repository *)

Section AnyRepository.

Context {W : Type}.
Variable repo : Repository W.

Lemma nextCategory_returns (w w' : W) (c : string) (err : option error) :
  nextCategory repo w = (Returns (c, err), w') ->
  match err with
  | None => c = CategoryPomodoro \/ c = CategoryShortBreak \/ c = CategoryLongBreak
  | Some _ => c = ""
  end.
Proof.
  unfold nextCategory, bind.
  destruct (Last repo w) as [[[li [e|]]|msg|] w1]; try discriminate.
  - destruct (error_eqb e ErrNoIntervals); intros H; injection H as <- <- _; auto.
  - destruct ((Category li =? CategoryLongBreak)%string
              || (Category li =? CategoryShortBreak)%string).
    + intros H; injection H as <- <- _; auto.
    + destruct (Breaks repo 3 w1) as [[[bs [e|]]|msg|] w2]; try discriminate.
      * intros H; injection H as <- <- _; auto.
      * destruct (Z.of_nat (length bs) <? 3);
          [|destruct (existsb _ bs)]; intros H; injection H as <- <- _; auto.
Qed.

(** X2. Whatever the repository does, a category that [nextCategory]
    returns without error is one of the three constants, and the category
    that it returns with an error is the empty string. *)
Theorem nextCategory_range (w w' : W) (c : string) (err : option error) :
  nextCategory repo w = (Returns (c, err), w') ->
  match err with
  | None => c = CategoryPomodoro \/ c = CategoryShortBreak \/ c = CategoryLongBreak
  | Some _ => c = ""
  end.
Proof. apply nextCategory_returns. Qed.

(** X3. An error of [Last] that is not the value [ErrNoIntervals] itself
    (an error that wraps it included) is returned as it is by
    [nextCategory], with an empty category, and by [GetInterVal]; the
    state is the one that [Last] left: [Breaks] and [Create] are not
    called. *)
Theorem Last_error_is_returned
  (config : IntervalConfig) (w w1 : W) (li : Interval) (e : error) :
  Last repo w = (Returns (li, Some e), w1) ->
  e <> ErrNoIntervals ->
  nextCategory repo w = (Returns ("", Some e), w1)
  /\ GetInterVal repo config w = (Returns (li, Some e), w1).
Proof.
  intros HL He.
  assert (Hb : error_eqb e ErrNoIntervals = false).
  { unfold error_eqb. destruct (error_eq_dec e ErrNoIntervals); congruence. }
  unfold nextCategory, GetInterVal, bind. rewrite HL, Hb. split; reflexivity.
Qed.

Lemma newInterval_returns (config : IntervalConfig) (w w' : W) (i : Interval) :
  newInterval repo config w = (Returns (i, None), w') ->
  State i = StateNotStarted
  /\ StartTime i = 0
  /\ ActualDuration i = 0
  /\ ((Category i = CategoryPomodoro
       /\ PlannedDuration i = PomodoroDuration config)
      \/ (Category i = CategoryShortBreak
          /\ PlannedDuration i = ShortBreakDuration config)
      \/ (Category i = CategoryLongBreak
          /\ PlannedDuration i = LongBreakDuration config)).
Proof.
  unfold newInterval, bind.
  destruct (nextCategory repo w) as [[[c [e|]]|msg|] w1] eqn:Hn; try discriminate.
  apply nextCategory_returns in Hn.
  destruct Hn as [-> | [-> | ->]]; cbn;
    match goal with
    | |- context [Create repo ?x w1] =>
        destruct (Create repo x w1) as [[[id [e|]]|msg|] w2]
    end; try discriminate;
    intros H; injection H as <- _; cbn; repeat split; auto.
Qed.

(** X4. An interval that [newInterval] returns without error is in state
    [StateNotStarted], with no start time and no elapsed time; its
    category is one of the three constants and its planned duration is
    the duration that the configuration has for that category. *)
Theorem newInterval_shape (config : IntervalConfig) (w w' : W) (i : Interval) :
  newInterval repo config w = (Returns (i, None), w') ->
  State i = StateNotStarted
  /\ StartTime i = 0
  /\ ActualDuration i = 0
  /\ ((Category i = CategoryPomodoro
       /\ PlannedDuration i = PomodoroDuration config)
      \/ (Category i = CategoryShortBreak
          /\ PlannedDuration i = ShortBreakDuration config)
      \/ (Category i = CategoryLongBreak
          /\ PlannedDuration i = LongBreakDuration config)).
Proof. apply newInterval_returns. Qed.

(** X5. Get-or-create does not create twice: when [GetInterVal] has
    returned an interval without error, and the repository then reports
    that interval as its last one, a second [GetInterVal] returns the same
    interval and calls nothing but [Last]. *)
Theorem GetInterVal_again (config : IntervalConfig) (w w' : W) (i : Interval) :
  GetInterVal repo config w = (Returns (i, None), w') ->
  Last repo w' = (Returns (i, None), w') ->
  GetInterVal repo config w' = (Returns (i, None), w').
Proof.
  intros Hg HL.
  assert (Hs : negb (State i =? StateCancelled) && negb (State i =? StateDone) = true).
  { unfold GetInterVal, bind in Hg.
    destruct (Last repo w) as [[[li [e|]]|msg|] w1]; try discriminate.
    - destruct (negb (error_eqb e ErrNoIntervals)); [discriminate|].
      apply newInterval_returns in Hg. destruct Hg as [-> _]. reflexivity.
    - destruct (negb (State li =? StateCancelled) && negb (State li =? StateDone))
        eqn:Ha.
      + injection Hg as <- _. exact Ha.
      + apply newInterval_returns in Hg. destruct Hg as [-> _]. reflexivity. }
  unfold GetInterVal, bind. rewrite HL, Hs. reflexivity.
Qed.

(** X6. [Start] on an interval whose state is none of the five constants
    returns an error that wraps [ErrInvalidState] and carries the state,
    and leaves everything as it is, whatever the callbacks and the events
    are. *)
Theorem Start_invalid_state
  (i : Interval) (now : Time) (ready : list event) (config : IntervalConfig)
  (start periodic end_ : Callback) (w : W) :
  State i < StateNotStarted \/ StateCancelled < State i ->
  Start repo i now ready config start periodic end_ w
  = (Returns (Some (Errorf "%w: %d" ErrInvalidState [State i])), w)
  /\ errors_Is (Errorf "%w: %d" ErrInvalidState [State i]) ErrInvalidState = true.
Proof.
  unfold StateNotStarted, StateCancelled. intros Hs. split; [|reflexivity].
  unfold Start, StateRunning, StateNotStarted, StatePaused, StateCancelled, StateDone.
  destruct (Z.eqb_spec (State i) 1); [lia|].
  destruct (Z.eqb_spec (State i) 0); [lia|].
  destruct (Z.eqb_spec (State i) 2); [lia|].
  destruct (Z.eqb_spec (State i) 4); [lia|].
  destruct (Z.eqb_spec (State i) 3); [lia|].
  reflexivity.
Qed.

End AnyRepository.

Lemma Last_error_is_returned_witness :
  nextCategory (runs.failing (Errorf "%w: no rows" ErrNoIntervals [])) tt
  = (Returns ("", Some (Errorf "%w: no rows" ErrNoIntervals [])), tt).
Proof.
  refine (proj1 (Last_error_is_returned
                   (runs.failing (Errorf "%w: no rows" ErrNoIntervals []))
                   samples.default_config tt tt zeroInterval _ _ _)).
  - reflexivity.
  - discriminate.
Defined.

Lemma nextCategory_range_witness :
  CategoryLongBreak = CategoryPomodoro \/ CategoryLongBreak = CategoryShortBreak
  \/ CategoryLongBreak = CategoryLongBreak.
Proof.
  apply (nextCategory_range contract.memoryStore
           (repository.store samples.three_short_rests)
           (repository.store samples.three_short_rests) CategoryLongBreak None).
  reflexivity.
Defined.

Lemma newInterval_shape_witness :
  State (mkInterval 7 0 (15 * Minute) 0 CategoryLongBreak StateNotStarted)
  = StateNotStarted.
Proof.
  refine (proj1 (newInterval_shape contract.memoryStore samples.default_config
                   (repository.store samples.three_short_rests)
                   (repository.store
                      (samples.three_short_rests
                         ++ [mkInterval 7 0 (15 * Minute) 0 CategoryLongBreak
                               StateNotStarted]))
                   _ _)).
  reflexivity.
Defined.

Lemma GetInterVal_again_witness :
  GetInterVal contract.memoryStore samples.default_config
    (repository.store
       [mkInterval 1 0 (25 * Minute) 0 CategoryPomodoro StateNotStarted])
  = (Returns (mkInterval 1 0 (25 * Minute) 0 CategoryPomodoro StateNotStarted, None),
     repository.store
       [mkInterval 1 0 (25 * Minute) 0 CategoryPomodoro StateNotStarted]).
Proof.
  apply (GetInterVal_again contract.memoryStore samples.default_config
           repository.NewInMemoryRepo).
  - reflexivity.
  - reflexivity.
Defined.

Lemma Start_invalid_state_witness :
  Start contract.memoryStore (samples.first_in 7) 7 [TickerC; Expire]
    samples.default_config runs.panicking runs.panicking runs.panicking
    (repository.store [samples.first_in 7])
  = (Returns (Some (Errorf "%w: %d" ErrInvalidState [7])),
     repository.store [samples.first_in 7]).
Proof.
  refine (proj1 (Start_invalid_state contract.memoryStore (samples.first_in 7)
                   _ _ _ _ _ _ _ _)).
  right. vm_compute. reflexivity.
Defined.

(** ** The in-memory store: lookups and updates *)

Section InMemoryLookups.

Import repository.

Lemma wrap64_pred (id : Z) : 1 <= id <= max_int64 -> wrap64 (id - 1) = id - 1.
Proof.
  intros Hid. apply wrap64_id. unfold is_int64, min_int64, max_int64 in *. lia.
Qed.

Lemma index_position (l : list Interval) (id : Z) :
  1 <= id -> index l (id - 1) = l !! runs.position id.
Proof.
  intros Hid. unfold index, runs.position.
  destruct (Z.ltb_spec (id - 1) 0); [lia|reflexivity].
Qed.

Lemma ByID_found (l : list Interval) (id : Z) (i : Interval) :
  1 <= id <= max_int64 ->
  l !! runs.position id = Some i ->
  ByID id (store l) = (Returns (i, None), store l).
Proof.
  intros Hid Hl. rewrite ByID_store.
  destruct (Z.eqb_spec id 0); [lia|].
  rewrite wrap64_pred, index_position, Hl by lia. reflexivity.
Qed.

Lemma Update_found (l : list Interval) (i x : Interval) :
  1 <= ID i <= max_int64 ->
  l !! runs.position (ID i) = Some x ->
  Update i (store l) = (Returns None, store (<[runs.position (ID i) := i]> l)).
Proof.
  intros Hid Hl. rewrite Update_store.
  destruct (Z.eqb_spec (ID i) 0); [lia|].
  rewrite wrap64_pred, index_position, Hl by lia. reflexivity.
Qed.

Lemma position_lt (l : list Interval) (id : Z) :
  1 <= id <= Z.of_nat (length l) -> (runs.position id < length l)%nat.
Proof. unfold runs.position. lia. Qed.

(** The index computed for an id of [int64] is the position of the id
    when the id is at least 1, and is negative or past every slice
    otherwise. *)
Lemma index_of_id (l : list Interval) (id : Z) :
  is_int64 id -> Z.of_nat (length l) <= max_int64 ->
  index l (wrap64 (id - 1))
  = if (1 <=? id) && (id <=? Z.of_nat (length l)) then l !! runs.position id
    else None.
Proof.
  intros Hid Hlen.
  destruct (Z.leb_spec 1 id); cbn [andb].
  - rewrite wrap64_pred, index_position
      by (unfold is_int64, min_int64, max_int64 in *; lia).
    destruct (Z.leb_spec id (Z.of_nat (length l))); [reflexivity|].
    apply lookup_ge_None. unfold runs.position. lia.
  - apply unknown_id_index; [exact Hid|exact Hlen|lia].
Qed.

Lemma ByID_returns_iff (l : list Interval) (id : Z) (i : Interval) (s : inMemoryRepo) :
  is_int64 id ->
  Z.of_nat (length l) <= max_int64 ->
  ByID id (store l) = (Returns (i, None), s)
  <-> 1 <= id <= Z.of_nat (length l)
      /\ l !! runs.position id = Some i /\ s = store l.
Proof.
  intros Hid Hlen.
  rewrite ByID_store, (index_of_id l id Hid Hlen).
  destruct (Z.eqb_spec id 0) as [->|Hnz].
  - split; [discriminate|]. lia.
  - destruct (Z.leb_spec 1 id), (Z.leb_spec id (Z.of_nat (length l))); cbn [andb];
      try (split; [discriminate|lia]).
    destruct (l !! runs.position id) as [x|] eqn:Hx.
    + split.
      * intros Heq. injection Heq as <- <-. repeat split; lia.
      * intros (_ & Hx' & ->). injection Hx' as <-. reflexivity.
    + split; [discriminate|]. intros (_ & Hx' & _). discriminate.
Qed.

(** X7. On a store whose mutex is free, [ByID] returns an interval without
    error exactly for the ids from 1 to the number of records, and then
    returns the record at position [id - 1] and leaves the store as it
    is; [Update] returns [nil] exactly for intervals with such an id, and
    then has replaced the record at that position by the interval. *)
Theorem ByID_Update_succeed_iff
  (l : list Interval) (id : Z) (i : Interval) (s : inMemoryRepo) :
  is_int64 id ->
  is_int64 (ID i) ->
  Z.of_nat (length l) <= max_int64 ->
  (ByID id (store l) = (Returns (i, None), s)
   <-> 1 <= id <= Z.of_nat (length l)
       /\ l !! runs.position id = Some i /\ s = store l)
  /\ (Update i (store l) = (Returns None, s)
      <-> 1 <= ID i <= Z.of_nat (length l)
          /\ s = store (<[runs.position (ID i) := i]> l)).
Proof.
  intros Hid Hi Hlen. split; [apply ByID_returns_iff; assumption|].
  rewrite Update_store, (index_of_id l (ID i) Hi Hlen).
  destruct (Z.eqb_spec (ID i) 0) as [Hz|Hnz].
  - split; [discriminate|]. lia.
  - destruct (Z.leb_spec 1 (ID i)), (Z.leb_spec (ID i) (Z.of_nat (length l)));
      cbn [andb]; try (split; [discriminate|lia]).
    destruct (l !! runs.position (ID i)) as [x|] eqn:Hx.
    + rewrite wrap64_pred by (unfold is_int64, max_int64 in *; lia).
      fold (runs.position (ID i)).
      split.
      * intros Heq. injection Heq as <-. split; [lia|reflexivity].
      * intros (_ & ->). reflexivity.
    + apply lookup_ge_None in Hx. pose proof (position_lt l (ID i)). lia.
Qed.

(** X8. [Update] and then [ByID]: an interval whose id is between 1 and
    the number of records is stored without error, the number of records
    is unchanged, [ByID] with its id returns the interval as it was given,
    and [ByID] with any other id does what it did before. *)
Theorem Update_then_ByID (l : list Interval) (i : Interval) :
  1 <= ID i <= Z.of_nat (length l) ->
  Z.of_nat (length l) <= max_int64 ->
  let l' := <[runs.position (ID i) := i]> l in
  Update i (store l) = (Returns None, store l')
  /\ length l' = length l
  /\ ByID (ID i) (store l') = (Returns (i, None), store l')
  /\ (forall id : Z, is_int64 id -> id <> ID i ->
        fst (ByID id (store l')) = fst (ByID id (store l))).
Proof.
  intros Hid Hlen l'.
  pose proof (position_lt l (ID i) Hid) as Hpos.
  destruct (lookup_lt_is_Some_2 l _ Hpos) as [x Hx].
  split; [|split; [|split]].
  - apply (Update_found l i x); [lia|exact Hx].
  - apply length_insert.
  - apply ByID_found; [lia|]. apply list_lookup_insert_eq. exact Hpos.
  - intros id Hint Hne. rewrite !ByID_store.
    destruct (id =? 0); [reflexivity|].
    rewrite !index_of_id by (try assumption; unfold l'; rewrite ?length_insert; lia).
    unfold l'. rewrite length_insert.
    destruct ((1 <=? id) && (id <=? Z.of_nat (length l))) eqn:Hr; [|reflexivity].
    apply andb_prop in Hr. destruct Hr as [H1 H2].
    apply Z.leb_le in H1. apply Z.leb_le in H2.
    rewrite list_lookup_insert_ne by (unfold runs.position; lia).
    destruct (l !! runs.position id); reflexivity.
Qed.

(** X9. [Create] and then [ByID]: on a store that has room for one more
    record, [Create] returns the number of records plus one as the id and
    appends the interval with that id; [ByID] with the id returns that
    record, and [ByID] with an id that was valid before returns what it
    returned before. *)
Theorem Create_then_ByID (l : list Interval) (i : Interval) :
  Z.of_nat (length l) < max_int64 ->
  let id := Z.of_nat (length l) + 1 in
  let l' := l ++ [with_ID id i] in
  Create i (store l) = (Returns (id, None), store l')
  /\ ByID id (store l') = (Returns (with_ID id i, None), store l')
  /\ (forall id0 : Z, 1 <= id0 <= Z.of_nat (length l) ->
        fst (ByID id0 (store l')) = fst (ByID id0 (store l))).
Proof.
  intros Hlen id l'. split; [|split].
  - rewrite Create_store. cbn zeta.
    rewrite wrap64_id by (unfold is_int64, min_int64, max_int64 in *; lia).
    reflexivity.
  - apply ByID_found; [unfold id; lia|].
    unfold l', runs.position, id.
    replace (Z.to_nat (Z.of_nat (length l) + 1 - 1)) with (length l) by lia.
    apply list_lookup_middle. reflexivity.
  - intros id0 Hid0.
    pose proof (position_lt l id0 Hid0) as Hpos.
    destruct (lookup_lt_is_Some_2 l _ Hpos) as [x Hx].
    rewrite (ByID_found l' id0 x), (ByID_found l id0 x); try lia; try exact Hx.
    + reflexivity.
    + unfold l'. apply lookup_app_l_Some. exact Hx.
Qed.


(** X11. [Breaks] releases a read lock that it has not acquired.  On a
    store that has no reader it computes its result and then fails in the
    deferred [RUnlock]: it never returns.  On a store that has readers it
    returns what its loop collected, and one of their read locks is
    gone. *)
Theorem Breaks_unlocks_unheld (r : inMemoryRepo) (n : Z) :
  match readers (mu r) with
  | O =>
      Breaks n r = (Panics "fatal error: sync: RUnlock of unlocked RWMutex", r)
  | S k =>
      Breaks n r
      = (Returns (Breaks_loop n (rev (intervals r)) [], None),
         mkRepo (mkRWMutex (writer (mu r)) k) (intervals r))
  end.
Proof. destruct r as [[w [|rd]] l]; reflexivity. Qed.

Lemma Breaks_loop_bounded (n : Z) (downwards data : list Interval) :
  Z.of_nat (length data) < n ->
  Breaks_loop n downwards data
  = data ++ firstn (Z.to_nat n - length data)
              (List.filter runs.not_work downwards).
Proof.
  revert data. induction downwards as [|x d IH]; intros data Hlen.
  - cbn. rewrite firstn_nil, app_nil_r. reflexivity.
  - cbn [Breaks_loop List.filter]. unfold runs.not_work at 1.
    destruct (Category x =? CategoryPomodoro)%string; cbn [negb].
    + apply IH. exact Hlen.
    + rewrite length_app. cbn [length].
      destruct (Z.eqb_spec (Z.of_nat (length data + 1)) n) as [Hn|Hn].
      * replace (Z.to_nat n - length data)%nat with 1%nat by lia.
        cbn. rewrite firstn_0. reflexivity.
      * rewrite IH by (rewrite length_app; cbn; lia).
        rewrite length_app. cbn [length].
        replace (Z.to_nat n - length data)%nat
          with (S (Z.to_nat n - (length data + 1)))%nat by lia.
        cbn. rewrite <- app_assoc. reflexivity.
Qed.

Lemma Breaks_loop_unbounded (n : Z) (downwards data : list Interval) :
  n <= 0 ->
  Breaks_loop n downwards data = data ++ List.filter runs.not_work downwards.
Proof.
  intros Hn. revert data. induction downwards as [|x d IH]; intros data.
  - cbn. rewrite app_nil_r. reflexivity.
  - cbn [Breaks_loop List.filter]. unfold runs.not_work at 1.
    destruct (Category x =? CategoryPomodoro)%string; cbn [negb].
    + apply IH.
    + rewrite length_app. cbn [length].
      destruct (Z.eqb_spec (Z.of_nat (length data + 1)) n) as [Hn'|Hn']; [lia|].
      rewrite IH, <- app_assoc. reflexivity.
Qed.

(** X12. What the loop of [Breaks] collects from the records [l]: the
    records whose category is not [Pomodoro], most recent first; the first
    [n] of them when [n] is positive, and all of them when [n] is zero or
    negative. *)
Theorem Breaks_loop_collected (n : Z) (l : list Interval) :
  Breaks_loop n (rev l) []
  = if 0 <? n then firstn (Z.to_nat n) (List.filter runs.not_work (rev l))
    else List.filter runs.not_work (rev l).
Proof.
  destruct (Z.ltb_spec 0 n).
  - rewrite Breaks_loop_bounded by (cbn; lia). cbn. rewrite Nat.sub_0_r. reflexivity.
  - rewrite Breaks_loop_unbounded by lia. reflexivity.
Qed.

(** X13. In a store reached from the empty one, an interval that [ByID]
    returns without error carries the id that was asked for. *)
Theorem reached_ByID_carries_id
  (n : nat) (r r' : inMemoryRepo) (id : Z) (i : Interval) :
  reached n r ->
  Z.of_nat n <= max_int64 ->
  is_int64 id ->
  ByID id r = (Returns (i, None), r') ->
  ID i = id /\ r' = r.
Proof.
  intros Hreach Hmax Hid Hb.
  destruct (reached_store n r Hreach) as [Hr Hn].
  pose proof (reached_ids_sequential n r Hreach Hmax) as Hseq.
  rewrite Hr in Hb.
  apply ByID_returns_iff in Hb; [|exact Hid|rewrite Hn; exact Hmax].
  destruct Hb as (Hrange & Hl & ->).
  split; [|symmetry; exact Hr].
  rewrite (Hseq _ _ Hl). unfold runs.position. lia.
Qed.

End InMemoryLookups.

Lemma ByID_Update_succeed_iff_witness :
  repository.ByID 1 (repository.store [samples.first_in StateRunning])
  = (Returns (samples.first_in StateRunning, None),
     repository.store [samples.first_in StateRunning]).
Proof.
  apply (proj2 (proj1 (ByID_Update_succeed_iff [samples.first_in StateRunning] 1
                         (samples.first_in StateRunning)
                         (repository.store [samples.first_in StateRunning])
                         ltac:(vm_compute; split; discriminate)
                         ltac:(vm_compute; split; discriminate)
                         ltac:(vm_compute; discriminate)))).
  repeat split; vm_compute; discriminate.
Defined.

Lemma Update_then_ByID_witness :
  repository.Update (samples.first_in StatePaused)
    (repository.store [samples.first_in StateRunning])
  = (Returns None, repository.store [samples.first_in StatePaused]).
Proof.
  refine (proj1 (Update_then_ByID [samples.first_in StateRunning]
                   (samples.first_in StatePaused) _ _)).
  - vm_compute. split; discriminate.
  - vm_compute. discriminate.
Defined.

Lemma Create_then_ByID_witness :
  repository.ByID 1
    (repository.store [with_ID 1 (samples.sample CategoryPomodoro)])
  = (Returns (with_ID 1 (samples.sample CategoryPomodoro), None),
     repository.store [with_ID 1 (samples.sample CategoryPomodoro)]).
Proof.
  refine (proj1 (proj2 (Create_then_ByID [] (samples.sample CategoryPomodoro) _))).
  vm_compute. reflexivity.
Defined.

Lemma reached_ByID_carries_id_witness :
  ID (with_ID 1 (samples.sample CategoryPomodoro)) = 1.
Proof.
  refine (proj1 (reached_ByID_carries_id 1
                   (repository.store [with_ID 1 (samples.sample CategoryPomodoro)])
                   (repository.store [with_ID 1 (samples.sample CategoryPomodoro)])
                   1 _ _ _ _ _)).
  - apply (repository.reached_Create 0 repository.NewInMemoryRepo
             (samples.sample CategoryPomodoro) (Returns (1, None))).
    + apply repository.reached_new.
    + reflexivity.
  - vm_compute. discriminate.
  - vm_compute. split; discriminate.
  - reflexivity.
Defined.

(** ** Runs of the timer on the in-memory store *)

Section InMemoryRuns.

Import repository observe.

(** A repository whose [Update] and [ByID] are those of inMemory.go. *)
Variable repo : Repository inMemoryRepo.
Hypothesis repo_Update : forall i, pomodoro.Update repo i = repository.Update i.
Hypothesis repo_ByID : forall id, pomodoro.ByID repo id = repository.ByID id.

Lemma observed_ByID (id : Z) (s : inMemoryRepo) (log : calls) :
  pomodoro.ByID (observed repo) id (s, log)
  = let (o, s') := repository.ByID id s in (o, (s', log)).
Proof. cbn. unfold lift. cbn. rewrite repo_ByID. reflexivity. Qed.

Lemma observed_Update (i : Interval) (s : inMemoryRepo) (log : calls) :
  pomodoro.Update (observed repo) i (s, log)
  = let (o, s') := repository.Update i s in (o, (s', log)).
Proof. cbn. unfold lift. cbn. rewrite repo_Update. reflexivity. Qed.

Lemma elapsed_0 (i : Interval) : runs.elapsed 0 i = i.
Proof.
  destruct i. unfold runs.elapsed, with_ActualDuration. cbn.
  f_equal. lia.
Qed.

Lemma elapsed_elapsed (a b : nat) (i : Interval) :
  runs.elapsed a (runs.elapsed b i) = runs.elapsed (a + b) i.
Proof.
  unfold runs.elapsed, with_ActualDuration. cbn. f_equal. lia.
Qed.

Lemma periodic_calls_S (k : nat) (i : Interval) :
  runs.periodic_calls (S k) i
  = (OnPeriodic, runs.elapsed 1 i) :: runs.periodic_calls k (runs.elapsed 1 i).
Proof.
  unfold runs.periodic_calls. cbn [seq map]. f_equal.
  rewrite <- seq_shift, map_map. apply map_ext. intros j.
  rewrite elapsed_elapsed. f_equal. f_equal. lia.
Qed.

(** [k] ticks on an interval that is not paused count [k] seconds, one
    update and one call of the periodic callback each. *)
Lemma tick_loop_ticks (id : Z) (rest : list event) (k : nat) :
  forall (l : list Interval) (i : Interval) (log : calls),
    1 <= id <= max_int64 ->
    l !! runs.position id = Some i ->
    ID i = id ->
    State i <> StatePaused ->
    min_int64 <= ActualDuration i ->
    ActualDuration i + Z.of_nat k * Second <= max_int64 ->
    tick_loop (observed repo) (runs.ticks k ++ rest) id
      (record OnPeriodic) (record OnEnd) (store l, log)
    = tick_loop (observed repo) rest id (record OnPeriodic) (record OnEnd)
        (store (<[runs.position id := runs.elapsed k i]> l),
         log ++ runs.periodic_calls k i).
Proof.
  induction k as [|k IH]; intros l i log Hid Hl HID Hs Hmin Hmax.
  - cbn [runs.ticks repeat app]. rewrite elapsed_0, (list_insert_id l _ i Hl).
    unfold runs.periodic_calls. cbn. rewrite app_nil_r. reflexivity.
  - assert (Hsec : Second = 1000000000) by reflexivity.
    assert (H1 : with_ActualDuration (wrap64 (ActualDuration i + Second)) i
                 = runs.elapsed 1 i).
    { unfold runs.elapsed. rewrite wrap64_id.
      - f_equal; lia.
      - unfold is_int64, min_int64, max_int64 in *. lia. }
    cbn [runs.ticks repeat app tick_loop]. unfold bind at 1.
    rewrite observed_ByID, (ByID_found l id i Hid Hl).
    apply Z.eqb_neq in Hs. rewrite Hs. unfold bind at 1.
    rewrite observed_Update, H1.
    rewrite (Update_found l (runs.elapsed 1 i) i)
      by (cbn [runs.elapsed with_ActualDuration ID]; rewrite ?HID; assumption).
    unfold bind at 1. unfold record at 1. cbn [fst snd].
    change (ID (runs.elapsed 1 i)) with (ID i). rewrite HID.
    fold (runs.ticks k).
    rewrite (IH _ (runs.elapsed 1 i)).
    + rewrite list_insert_insert_eq, elapsed_elapsed, periodic_calls_S.
      replace (k + 1)%nat with (S k) by lia.
      rewrite <- app_assoc. reflexivity.
    + exact Hid.
    + apply list_lookup_insert_eq. apply lookup_lt_Some in Hl. exact Hl.
    + exact HID.
    + apply Z.eqb_neq. exact Hs.
    + cbn. lia.
    + cbn. lia.
Qed.

(** [Start] on an interval that is not started or is paused, whose id is
    the id of a record: the record becomes the caller's copy, running; the
    start callback is called on it; then [k] ticks are counted. *)
Lemma Start_ticks
  (i : Interval) (now : Time) (k : nat) (rest : list event)
  (config : IntervalConfig) (l : list Interval) (log : calls) :
  State i = StateNotStarted \/ State i = StatePaused ->
  1 <= ID i <= Z.of_nat (length l) ->
  Z.of_nat (length l) <= max_int64 ->
  min_int64 <= ActualDuration i ->
  ActualDuration i + Z.of_nat k * Second <= max_int64 ->
  let i0 := runs.started now i in
  Start (observed repo) i now (runs.ticks k ++ rest) config
    (record OnStart) (record OnPeriodic) (record OnEnd) (store l, log)
  = tick_loop (observed repo) rest (ID i) (record OnPeriodic) (record OnEnd)
      (store (<[runs.position (ID i) := runs.elapsed k i0]> l),
       log ++ (OnStart, i0) :: runs.periodic_calls k i0).
Proof.
  intros Hs Hid Hlen Hmin Hmax i0.
  pose proof (position_lt l (ID i) Hid) as Hpos.
  destruct (lookup_lt_is_Some_2 l _ Hpos) as [x Hx].
  assert (HID : ID i0 = ID i).
  { unfold i0, runs.started. destruct (State i =? StateNotStarted); reflexivity. }
  assert (HAD : ActualDuration i0 = ActualDuration i).
  { unfold i0, runs.started. destruct (State i =? StateNotStarted); reflexivity. }
  assert (Hrun : Start (observed repo) i now (runs.ticks k ++ rest) config
                   (record OnStart) (record OnPeriodic) (record OnEnd) (store l, log)
                 = bind (pomodoro.Update (observed repo) i0)
                     (fun err =>
                        match err with
                        | Some e => ret (Some e)
                        | None =>
                            tick (observed repo) (runs.ticks k ++ rest) (ID i0) config
                              (record OnStart) (record OnPeriodic) (record OnEnd)
                        end) (store l, log)).
  { unfold Start, i0, runs.started.
    destruct Hs as [Hs|Hs]; rewrite Hs; reflexivity. }
  rewrite Hrun. unfold bind at 1.
  rewrite observed_Update, (Update_found l i0 x) by (rewrite HID; first [lia | exact Hx]).
  rewrite HID. unfold tick, bind at 1.
  rewrite observed_ByID.
  rewrite (ByID_found _ (ID i) i0)
    by (try lia; apply list_lookup_insert_eq; exact Hpos).
  unfold bind at 1. unfold record at 1. cbn [fst snd].
  rewrite (tick_loop_ticks (ID i) rest k _ i0).
  - rewrite list_insert_insert_eq, <- app_assoc. reflexivity.
  - lia.
  - apply list_lookup_insert_eq. exact Hpos.
  - exact HID.
  - unfold i0, runs.started. cbn. discriminate.
  - rewrite HAD. exact Hmin.
  - rewrite HAD. exact Hmax.
Qed.

(** X14. A whole run on the in-memory store.  [Start] on an interval that
    is not started or is paused, whose id is the id of a record, with
    [k] ticks and then the expiry of the timer, returns [nil]; the record
    is then the caller's copy in state [StateDone], with the start time
    set on a first start and kept on a resumption, and with [k] seconds
    more of elapsed time; the callbacks were called in this order: the
    start callback once, the periodic callback once for each tick, the
    end callback once. *)
Theorem Start_runs_to_done
  (i : Interval) (now : Time) (k : nat) (rest : list event)
  (config : IntervalConfig) (l : list Interval) (log : calls) :
  State i = StateNotStarted \/ State i = StatePaused ->
  1 <= ID i <= Z.of_nat (length l) ->
  Z.of_nat (length l) <= max_int64 ->
  min_int64 <= ActualDuration i ->
  ActualDuration i + Z.of_nat k * Second <= max_int64 ->
  let i0 := runs.started now i in
  let done := with_State StateDone (runs.elapsed k i0) in
  Start (observed repo) i now (runs.ticks k ++ Expire :: rest) config
    (record OnStart) (record OnPeriodic) (record OnEnd) (store l, log)
  = (Returns None,
     (store (<[runs.position (ID i) := done]> l),
      log ++ (OnStart, i0) :: runs.periodic_calls k i0 ++ [(OnEnd, done)])).
Proof.
  intros Hs Hid Hlen Hmin Hmax i0 done.
  pose proof (position_lt l (ID i) Hid) as Hpos.
  rewrite (Start_ticks i now k (Expire :: rest) config l log Hs Hid Hlen Hmin Hmax).
  fold i0. cbn [tick_loop]. unfold bind at 1.
  rewrite observed_ByID.
  rewrite (ByID_found _ (ID i) (runs.elapsed k i0))
    by (try lia; apply list_lookup_insert_eq; exact Hpos).
  unfold bind at 1. unfold record at 1. cbn [fst snd]. fold done.
  assert (HID : ID done = ID i).
  { unfold done, i0, runs.started. destruct (State i =? StateNotStarted); reflexivity. }
  rewrite observed_Update.
  rewrite (Update_found _ done (runs.elapsed k i0))
    by (rewrite HID; first [lia | apply list_lookup_insert_eq; exact Hpos]).
  rewrite HID, list_insert_insert_eq, <- app_assoc. reflexivity.
Qed.

(** X15. A cancelled run on the in-memory store.  With [k] ticks and then
    the cancellation, [Start] returns [nil]; the record is the caller's
    copy in state [StateCancelled] with [k] seconds more of elapsed time;
    the start callback was called once, the periodic callback once for
    each tick, and the end callback not at all. *)
Theorem Start_runs_to_cancelled
  (i : Interval) (now : Time) (k : nat) (rest : list event)
  (config : IntervalConfig) (l : list Interval) (log : calls) :
  State i = StateNotStarted \/ State i = StatePaused ->
  1 <= ID i <= Z.of_nat (length l) ->
  Z.of_nat (length l) <= max_int64 ->
  min_int64 <= ActualDuration i ->
  ActualDuration i + Z.of_nat k * Second <= max_int64 ->
  let i0 := runs.started now i in
  let cancelled := with_State StateCancelled (runs.elapsed k i0) in
  Start (observed repo) i now (runs.ticks k ++ CtxDone :: rest) config
    (record OnStart) (record OnPeriodic) (record OnEnd) (store l, log)
  = (Returns None,
     (store (<[runs.position (ID i) := cancelled]> l),
      log ++ (OnStart, i0) :: runs.periodic_calls k i0)).
Proof.
  intros Hs Hid Hlen Hmin Hmax i0 cancelled.
  pose proof (position_lt l (ID i) Hid) as Hpos.
  rewrite (Start_ticks i now k (CtxDone :: rest) config l log Hs Hid Hlen Hmin Hmax).
  fold i0. cbn [tick_loop]. unfold bind at 1.
  rewrite observed_ByID.
  rewrite (ByID_found _ (ID i) (runs.elapsed k i0))
    by (try lia; apply list_lookup_insert_eq; exact Hpos).
  fold cancelled.
  assert (HID : ID cancelled = ID i).
  { unfold cancelled, i0, runs.started.
    destruct (State i =? StateNotStarted); reflexivity. }
  rewrite observed_Update.
  rewrite (Update_found _ cancelled (runs.elapsed k i0))
    by (rewrite HID; first [lia | apply list_lookup_insert_eq; exact Hpos]).
  rewrite HID, list_insert_insert_eq. reflexivity.
Qed.


(** X17. A pause takes effect at the next tick.  [Pause] on a running
    interval whose id is the id of a record stores the caller's copy in
    state [StatePaused]; the next tick of a loop on that id then returns
    [nil] and leaves the store as it is, whatever the callbacks are. *)
Theorem Pause_then_tick
  (i : Interval) (config : IntervalConfig) (l : list Interval)
  (ready : list event) (periodic end_ : Interval -> M inMemoryRepo unit) :
  State i = StateRunning ->
  1 <= ID i <= Z.of_nat (length l) ->
  Z.of_nat (length l) <= max_int64 ->
  let l' := <[runs.position (ID i) := with_State StatePaused i]> l in
  Pause repo i config (store l) = (Returns None, store l')
  /\ tick_loop repo (TickerC :: ready) (ID i) periodic end_ (store l')
     = (Returns None, store l').
Proof.
  intros Hs Hid Hlen l'.
  pose proof (position_lt l (ID i) Hid) as Hpos.
  destruct (lookup_lt_is_Some_2 l _ Hpos) as [x Hx].
  split.
  - unfold Pause. rewrite Hs. cbn [negb Z.eqb StateRunning].
    rewrite repo_Update.
    apply (Update_found l (with_State StatePaused i) x); [cbn; lia|exact Hx].
  - cbn [tick_loop]. unfold bind. rewrite repo_ByID.
    rewrite (ByID_found l' (ID i) (with_State StatePaused i))
      by (try lia; apply list_lookup_insert_eq; exact Hpos).
    reflexivity.
Qed.

(** X18. An interval that was never stored (its id is zero) cannot be
    started or paused on the in-memory store: [Start] from
    [StateNotStarted] or [StatePaused], and [Pause] from [StateRunning],
    return the error of [Update], which wraps [ErrInvalidID]; the store is
    left as it is and no callback is called. *)
Theorem Start_Pause_never_stored
  (i : Interval) (now : Time) (ready : list event) (config : IntervalConfig)
  (start periodic end_ : Interval -> M inMemoryRepo unit) (l : list Interval) :
  ID i = 0 ->
  (State i = StateNotStarted \/ State i = StatePaused ->
   Start repo i now ready config start periodic end_ (store l)
   = (Returns (Some (Errorf "%w: %d" ErrInvalidID [0])), store l))
  /\ (State i = StateRunning ->
      Pause repo i config (store l)
      = (Returns (Some (Errorf "%w: %d" ErrInvalidID [0])), store l)).
Proof.
  intros HID.
  assert (Hu : forall j, ID j = 0 ->
                 pomodoro.Update repo j (store l)
                 = (Returns (Some (Errorf "%w: %d" ErrInvalidID [0])), store l)).
  { intros j Hj. rewrite repo_Update, Update_store, Hj. reflexivity. }
  split; intros Hs.
  - unfold Start, bind.
    destruct Hs as [Hs|Hs]; rewrite Hs; cbn; rewrite Hu; try reflexivity; exact HID.
  - unfold Pause. rewrite Hs. cbn [negb Z.eqb StateRunning]. apply Hu. exact HID.
Qed.

(** X19. An interval whose id is not the id of a record (negative, or
    greater than the number of records) makes [Start] and [Pause] panic on
    the in-memory store, in the [Update] that they call: no error is
    returned; the store is left as it is. *)
Theorem Start_Pause_unknown_id
  (i : Interval) (now : Time) (ready : list event) (config : IntervalConfig)
  (start periodic end_ : Interval -> M inMemoryRepo unit) (l : list Interval) :
  is_int64 (ID i) ->
  Z.of_nat (length l) <= max_int64 ->
  ID i < 0 \/ Z.of_nat (length l) < ID i ->
  (State i = StateNotStarted \/ State i = StatePaused ->
   Start repo i now ready config start periodic end_ (store l)
   = (Panics index_panic, store l))
  /\ (State i = StateRunning ->
      Pause repo i config (store l) = (Panics index_panic, store l)).
Proof.
  intros Hint Hlen Hno.
  assert (Hu : forall j, ID j = ID i ->
                 pomodoro.Update repo j (store l) = (Panics index_panic, store l)).
  { intros j Hj. rewrite repo_Update, Update_store, Hj.
    destruct (Z.eqb_spec (ID i) 0); [lia|].
    rewrite unknown_id_index by (try assumption; lia). reflexivity. }
  split; intros Hs.
  - unfold Start, bind.
    destruct Hs as [Hs|Hs]; rewrite Hs; cbn; rewrite Hu; reflexivity.
  - unfold Pause. rewrite Hs. cbn [negb Z.eqb StateRunning]. apply Hu. reflexivity.
Qed.

End InMemoryRuns.

Lemma Start_runs_to_done_witness :
  Start (observe.observed contract.memoryStore) (samples.first_in StateNotStarted) 42
    (runs.ticks 2 ++ [Expire]) samples.default_config
    (observe.record observe.OnStart) (observe.record observe.OnPeriodic)
    (observe.record observe.OnEnd)
    (repository.store [samples.first_in StateNotStarted], [])
  = (Returns None,
     (repository.store
        [mkInterval 1 42 (3 * Second) (3 * Second) CategoryPomodoro StateDone],
      [(observe.OnStart,
        mkInterval 1 42 (3 * Second) Second CategoryPomodoro StateRunning);
       (observe.OnPeriodic,
        mkInterval 1 42 (3 * Second) (2 * Second) CategoryPomodoro StateRunning);
       (observe.OnPeriodic,
        mkInterval 1 42 (3 * Second) (3 * Second) CategoryPomodoro StateRunning);
       (observe.OnEnd,
        mkInterval 1 42 (3 * Second) (3 * Second) CategoryPomodoro StateDone)])).
Proof.
  apply (Start_runs_to_done contract.memoryStore
           (fun _ => eq_refl) (fun _ => eq_refl)
           (samples.first_in StateNotStarted) 42 2 [] samples.default_config
           [samples.first_in StateNotStarted] []).
  - left. reflexivity.
  - vm_compute. split; discriminate.
  - vm_compute. discriminate.
  - vm_compute. discriminate.
  - vm_compute. discriminate.
Defined.

Lemma Start_runs_to_cancelled_witness :
  Start (observe.observed contract.memoryStore) (samples.first_in StatePaused) 42
    (runs.ticks 1 ++ [CtxDone; Expire]) samples.default_config
    (observe.record observe.OnStart) (observe.record observe.OnPeriodic)
    (observe.record observe.OnEnd)
    (repository.store [samples.first_in StatePaused], [])
  = (Returns None,
     (repository.store
        [mkInterval 1 0 (3 * Second) (2 * Second) CategoryPomodoro StateCancelled],
      [(observe.OnStart,
        mkInterval 1 0 (3 * Second) Second CategoryPomodoro StateRunning);
       (observe.OnPeriodic,
        mkInterval 1 0 (3 * Second) (2 * Second) CategoryPomodoro StateRunning)])).
Proof.
  apply (Start_runs_to_cancelled contract.memoryStore
           (fun _ => eq_refl) (fun _ => eq_refl)
           (samples.first_in StatePaused) 42 1 [Expire] samples.default_config
           [samples.first_in StatePaused] []).
  - right. reflexivity.
  - vm_compute. split; discriminate.
  - vm_compute. discriminate.
  - vm_compute. discriminate.
  - vm_compute. discriminate.
Defined.


Lemma Pause_then_tick_witness :
  tick_loop contract.memoryStore [TickerC; Expire] 1 runs.panicking runs.panicking
    (repository.store [samples.first_in StatePaused])
  = (Returns None, repository.store [samples.first_in StatePaused]).
Proof.
  refine (proj2 (Pause_then_tick contract.memoryStore
                   (fun _ => eq_refl) (fun _ => eq_refl)
                   (samples.first_in StateRunning) samples.default_config
                   [samples.first_in StateRunning] [Expire]
                   runs.panicking runs.panicking _ _ _)).
  - reflexivity.
  - vm_compute. split; discriminate.
  - vm_compute. discriminate.
Defined.

Lemma Start_Pause_never_stored_witness :
  Pause contract.memoryStore
    (mkInterval 0 0 (3 * Second) 0 CategoryPomodoro StateRunning)
    samples.default_config (repository.store [samples.first_in StateRunning])
  = (Returns (Some (Errorf "%w: %d" ErrInvalidID [0])),
     repository.store [samples.first_in StateRunning]).
Proof.
  refine (proj2 (Start_Pause_never_stored contract.memoryStore
                   (fun _ => eq_refl)
                   (mkInterval 0 0 (3 * Second) 0 CategoryPomodoro StateRunning)
                   42 [] samples.default_config
                   runs.panicking runs.panicking runs.panicking
                   [samples.first_in StateRunning] _) _).
  - reflexivity.
  - reflexivity.
Defined.

Lemma Start_Pause_unknown_id_witness :
  Start contract.memoryStore
    (mkInterval 2 0 (3 * Second) 0 CategoryPomodoro StateNotStarted)
    42 [TickerC; Expire] samples.default_config
    runs.panicking runs.panicking runs.panicking
    (repository.store [samples.first_in StateRunning])
  = (Panics repository.index_panic, repository.store [samples.first_in StateRunning]).
Proof.
  refine (proj1 (Start_Pause_unknown_id contract.memoryStore
                   (fun _ => eq_refl)
                   (mkInterval 2 0 (3 * Second) 0 CategoryPomodoro StateNotStarted)
                   42 [TickerC; Expire] samples.default_config
                   runs.panicking runs.panicking runs.panicking
                   [samples.first_in StateRunning] _ _ _) _).
  - vm_compute. split; discriminate.
  - vm_compute. discriminate.
  - right. vm_compute. reflexivity.
  - left. reflexivity.
Defined.

(** ** The factory on the in-memory store *)

Section InMemoryFactory.

Import repository.

(** A repository whose [Create] and [ByID] are those of inMemory.go. *)
Variable repo : Repository inMemoryRepo.
Hypothesis repo_Create : forall i, pomodoro.Create repo i = repository.Create i.
Hypothesis repo_ByID : forall id, pomodoro.ByID repo id = repository.ByID id.

(** X20. The interval that [newInterval] returns is the record that the
    store holds.  On a store with room for one more record, when
    [nextCategory] gives a category and leaves the store as it is,
    [newInterval] returns an interval of that category whose id is the
    number of records plus one, the store holds that same interval as its
    last record, and [ByID] with the id returns it. *)
Theorem newInterval_returns_the_record
  (config : IntervalConfig) (l : list Interval) (c : string) :
  Z.of_nat (length l) < max_int64 ->
  nextCategory repo (store l) = (Returns (c, None), store l) ->
  exists i : Interval,
    newInterval repo config (store l) = (Returns (i, None), store (l ++ [i]))
    /\ ID i = Z.of_nat (length l) + 1
    /\ Category i = c
    /\ pomodoro.ByID repo (ID i) (store (l ++ [i]))
       = (Returns (i, None), store (l ++ [i])).
Proof.
  intros Hlen Hn. unfold newInterval, bind. rewrite Hn.
  match goal with
  | |- context [pomodoro.Create repo ?x (store l)] => set (i0 := x)
  end.
  rewrite repo_Create, Create_store. cbn zeta.
  rewrite wrap64_id by (unfold is_int64, min_int64, max_int64 in *; lia).
  exists (with_ID (Z.of_nat (length l) + 1) i0). split; [reflexivity|].
  split; [reflexivity|]. split.
  - unfold i0.
    destruct (c =? CategoryPomodoro)%string;
      [|destruct (c =? CategoryShortBreak)%string;
        [|destruct (c =? CategoryLongBreak)%string]]; reflexivity.
  - rewrite repo_ByID. apply ByID_found; [cbn; lia|].
    cbn [ID with_ID]. unfold runs.position.
    replace (Z.to_nat (Z.of_nat (length l) + 1 - 1)) with (length l) by lia.
    apply list_lookup_middle. reflexivity.
Qed.

End InMemoryFactory.

Lemma newInterval_returns_the_record_witness :
  exists i : Interval,
    newInterval contract.memoryStore samples.default_config
      (repository.store samples.three_short_rests)
    = (Returns (i, None), repository.store (samples.three_short_rests ++ [i]))
    /\ ID i = 7
    /\ Category i = CategoryLongBreak
    /\ pomodoro.ByID contract.memoryStore (ID i)
         (repository.store (samples.three_short_rests ++ [i]))
       = (Returns (i, None), repository.store (samples.three_short_rests ++ [i])).
Proof.
  apply (newInterval_returns_the_record contract.memoryStore
           (fun _ => eq_refl) (fun _ => eq_refl)
           samples.default_config samples.three_short_rests CategoryLongBreak).
  - vm_compute. reflexivity.
  - reflexivity.
Defined.
